(** * Ctypes-Tutorial: the index-fill routines and their ctypes wrappers

    The notebook [ctypes_array_fill.ipynb] holds two C routines
    ([fill_array], [fill_array_2d]) and two Python wrappers of the same
    names that coerce their argument with [np.ascontiguousarray] and hand
    the buffer to the C routine through [ctypes].

    - [Double]  : IEEE-754 binary64 values and the integer-to-double cast.
    - [SizeT]   : the 64-bit unsigned [size_t] with its wrap-around.
    - [C]       : the two native routines over a bounds-checked buffer.
    - [Py]      : NumPy arrays as views of a shared store, the coercion
                  [np.ascontiguousarray], the [ndpointer] argument check
                  and the two wrappers. *)

From Stdlib Require Import ZArith Lia List.
From Stdlib Require Import Floats.SpecFloat.
From stdpp Require Import base numbers option list gmap.

Local Open Scope Z_scope.

(** ** IEEE-754 double precision *)

Module Double.

Definition prec : Z := 53.
Definition emax : Z := 1024.

(** A C [double]: sign, mantissa and exponent, or zero, infinity, NaN. *)
Definition double : Type := spec_float.

Definition zero : double := S754_zero false.

(** The cast [(double)z] of an integer, rounding to nearest, ties to even. *)
Definition of_Z (z : Z) : double := binary_normalize prec emax z 0 false.

Definition is_finite (d : double) : bool :=
  match d with
  | S754_zero _ | S754_finite _ _ _ => true
  | S754_infinity _ | S754_nan => false
  end.

Definition signed (s : bool) (m : positive) : Z := cond_Zopp s (Zpos m).

(** [exactb d k]: the real number denoted by [d] is the integer [k]. *)
Definition exactb (d : double) (k : Z) : bool :=
  match d with
  | S754_zero _ => k =? 0
  | S754_finite s m e =>
      if 0 <=? e then signed s m * 2 ^ e =? k
      else signed s m =? k * 2 ^ (- e)
  | S754_infinity _ | S754_nan => false
  end.

Definition exact (d : double) (k : Z) : Prop := exactb d k = true.

End Double.

(** ** size_t *)

Module SizeT.

Definition bits : Z := 64.
Definition modulus : Z := 2 ^ bits.
Definition max : Z := modulus - 1.

Definition wrap (z : Z) : Z := z mod modulus.

Definition add (a b : Z) : Z := wrap (a + b).
Definition mul (a b : Z) : Z := wrap (a * b).

(** [++i] *)
Definition incr (i : Z) : Z := add i 1.

Definition in_range (z : Z) : Prop := 0 <= z <= max.

End SizeT.

(** ** The native routines *)

Module C.

Import Double.

(** The memory reachable through [double *arr]: the cells of the
    allocation, and a ghost log of the indices stored to, in program
    order.  The log is never read by the program. *)
Record buffer : Type := Buffer { cells : list double; stores : list Z }.

(** How a call ends.  Storing outside the allocation is undefined
    behaviour in C; [OutOfFuel] marks a loop cut short by the model. *)
Inductive outcome (A : Type) : Type :=
| Returned (a : A)
| Undefined
| OutOfFuel.
Arguments Returned {A} a.
Arguments Undefined {A}.
Arguments OutOfFuel {A}.

Definition bind {A B} (m : outcome A) (k : A → outcome B) : outcome B :=
  match m with
  | Returned a => k a
  | Undefined => Undefined
  | OutOfFuel => OutOfFuel
  end.

(** [arr[i] = v;] *)
Definition store (i : Z) (v : double) (arr : buffer) : outcome buffer :=
  if decide (0 ≤ i < Z.of_nat (length (cells arr))) then
    Returned (Buffer (<[Z.to_nat i := v]> (cells arr)) (stores arr ++ [i]))
  else Undefined.

(** [for (size_t i = start; cond(i); ++i) body(i);] *)
Fixpoint for_loop {S : Type} (fuel : nat) (cond : Z → bool)
    (body : Z → S → outcome S) (i : Z) (s : S) : outcome S :=
  match fuel with
  | O => OutOfFuel
  | Datatypes.S fuel' =>
      if cond i then
        bind (body i s) (for_loop fuel' cond body (SizeT.incr i))
      else Returned s
  end.

(** The body run at each index of a list, in order: what a counted
    loop unrolls to. *)
Fixpoint iterate {S : Type} (body : Z → S → outcome S) (ks : list Z)
    (s : S) : outcome S :=
  match ks with
  | [] => Returned s
  | k :: ks' => bind (body k s) (iterate body ks')
  end.

(** [arr[i] = (double)i;] *)
Definition fill_array_body (i : Z) (arr : buffer) : outcome buffer :=
  store i (of_Z i) arr.

Definition fill_array_fuel (fuel : nat) (arr : buffer) (size : Z)
    : outcome buffer :=
  for_loop fuel (λ i, i <? size) fill_array_body 0 arr.

(** [void fill_array(double *arr, size_t size)] of [array_fill.c]; the
    fuel is one test more than the loop has iterations. *)
Definition fill_array (arr : buffer) (size : Z) : outcome buffer :=
  fill_array_fuel (S (Z.to_nat size)) arr size.

(** [arr[i * cols + j] = (double)(i * cols + j);], the index computed
    in [size_t]. *)
Definition fill_array_2d_body (cols i j : Z) (arr : buffer)
    : outcome buffer :=
  let k := SizeT.add (SizeT.mul i cols) j in
  store k (of_Z k) arr.

Definition fill_array_2d_row (fuel : nat) (cols i : Z) (arr : buffer)
    : outcome buffer :=
  for_loop fuel (λ j, j <? cols) (fill_array_2d_body cols i) 0 arr.

Definition fill_array_2d_fuel (fuel_i fuel_j : nat) (arr : buffer)
    (rows cols : Z) : outcome buffer :=
  for_loop fuel_i (λ i, i <? rows) (fill_array_2d_row fuel_j cols) 0 arr.

(** [void fill_array_2d(double *arr, size_t rows, size_t cols)] of
    [array_fill_2d.c]. *)
Definition fill_array_2d (arr : buffer) (rows cols : Z) : outcome buffer :=
  fill_array_2d_fuel (S (Z.to_nat rows)) (S (Z.to_nat cols)) arr rows cols.

(** The buffer as the callee receives it: nothing stored yet. *)
Definition on_entry (l : list double) : buffer := Buffer l [].

(** [n] consecutive slots holding [(double)0 .. (double)(n-1)]. *)
Definition fill_values (n : Z) : list double := of_Z <$> seqZ 0 n.

(** Closed form of a fill of [n] slots: the first [n] cells are
    overwritten in index order and the others kept, unless [n] exceeds
    the allocation. *)
Definition fill_result (arr : buffer) (n : Z) : outcome buffer :=
  if decide (n ≤ Z.of_nat (length (cells arr)))
  then Returned (Buffer (fill_values n ++ drop (Z.to_nat n) (cells arr))
                        (stores arr ++ seqZ 0 n))
  else Undefined.

End C.

(** ** NumPy arrays, ctypes and the two wrappers *)

Module Py.

Import Double.

(** An allocation of the Python process. *)
Definition loc : Type := positive.

(** The items a Python sequence or an object array may hold.  [PyOther]
    is an object [float()] rejects (a non-numeric string, [None], ...). *)
Inductive pyobj : Type :=
| PyFloat (d : double)
| PyInt (z : Z)
| PyOther.

(** The data of an allocation, one constructor per element type:
    [np.float64], [np.int64], [object]. *)
Inductive storage : Type :=
| F64 (l : list double)
| I64 (l : list Z)
| Obj (l : list pyobj).

Abbreviation heap := (gmap loc storage).

(** An [ndarray] is a view of an allocation: where it starts, its
    dimensions and the step between neighbours along each dimension
    (offset and strides counted in items). *)
Record ndarray : Type :=
  NdArray { data : loc; offset : Z; shape : list Z; strides : list Z }.

(** What a caller may pass: a NumPy array, or a Python scalar or regular
    nested sequence given by its dimensions and its items in row-major
    order ([dims = []] for a scalar). *)
Inductive array_like : Type :=
| Array (a : ndarray)
| Sequence (dims : list Z) (items : list pyobj).

(** Why [ndpointer.from_param] rejected an argument. *)
Inductive param_error : Type := WrongDtype | WrongNdim | WrongFlags.

(** The exceptions the wrappers can raise:
    - [ConversionError]: the [ValueError], [TypeError] or [OverflowError]
      NumPy raises when an item cannot be converted to [float64];
    - [UnpackError]: the [ValueError] of [rows, cols = arr.shape];
    - [ArgumentError]: [ctypes.ArgumentError] around the [TypeError] of
      [ndpointer.from_param]. *)
Inductive exn : Type :=
| ConversionError
| UnpackError
| ArgumentError (why : param_error).

(** [Crashed]: the process died in native code or on a dangling view. *)
Inductive result (A : Type) : Type :=
| Ok (a : A)
| Raised (e : exn)
| Crashed.
Arguments Ok {A} a.
Arguments Raised {A} e.
Arguments Crashed {A}.

(** Python code: reads and updates the store, returns or raises. *)
Definition py (A : Type) : Type := heap → result A * heap.

#[export] Instance py_ret : MRet py := λ A a h, (Ok a, h).
#[export] Instance py_bind : MBind py := λ A B k m h,
  match m h with
  | (Ok a, h') => k a h'
  | (Raised e, h') => (Raised e, h')
  | (Crashed, h') => (Crashed, h')
  end.

Definition raise {A} (e : exn) : py A := λ h, (Raised e, h).
Definition lift {A} (r : result A) : py A := λ h, (r, h).

Definition deref (l : loc) : py storage := λ h,
  match h !! l with
  | Some st => (Ok st, h)
  | None => (Crashed, h)
  end.

Definition alloc (st : storage) : py loc := λ h,
  let l := fresh (dom h) in (Ok l, <[l := st]> h).

(** *** Array attributes *)

Definition ndim (a : ndarray) : nat := length (shape a).

Definition prod (dims : list Z) : Z := foldr Z.mul 1 dims.

(** [arr.size] *)
Definition size (a : ndarray) : Z := prod (shape a).

Definition is_float64 (st : storage) : bool :=
  match st with F64 _ => true | _ => false end.

(** NumPy's [_UpdateContiguousFlags], walking the dimensions from the
    last one: a dimension of length 1 is skipped, any other must step by
    the product of the dimensions after it. *)
Fixpoint strides_match (rdims rstrides : list Z) (sd : Z) : bool :=
  match rdims, rstrides with
  | d :: ds, t :: ts =>
      if d =? 1 then strides_match ds ts sd
      else (t =? sd) && strides_match ds ts (sd * d)
  | _, _ => true
  end.

(** [arr.flags['C_CONTIGUOUS']]; an array with an empty dimension is
    contiguous by definition. *)
Definition c_contiguous (a : ndarray) : bool :=
  existsb (Z.eqb 0) (shape a)
  || strides_match (rev (shape a)) (rev (strides a)) 1.

(** Positions, in the allocation, of the items of a view in row-major
    order. *)
Fixpoint indices (dims strides : list Z) (off : Z) : list Z :=
  match dims, strides with
  | d :: ds, t :: ts => i ← seqZ 0 d; indices ds ts (off + i * t)
  | _, _ => [off]
  end.

(** The strides NumPy gives a new C-order array ([_array_fill_strides]):
    an empty dimension counts as one. *)
Fixpoint c_strides (dims : list Z) : list Z :=
  match dims with
  | [] => []
  | d :: ds =>
      match c_strides ds, ds with
      | t :: _, d' :: _ => t * (if d' =? 0 then 1 else d')
      | _, _ => 1
      end :: c_strides ds
  end.

(** [ndmin=1]: a zero-dimensional array becomes a one-item view of the
    same data. *)
Definition at_least_1d (a : ndarray) : ndarray :=
  match shape a with
  | [] => NdArray (data a) (offset a) [1] [1]
  | _ => a
  end.

(** *** Conversion to [float64] *)

(** Python's [float(o)]. *)
Definition float_of (o : pyobj) : option double :=
  match o with
  | PyFloat d => Some d
  | PyInt z => let d := of_Z z in if is_finite d then Some d else None
  | PyOther => None
  end.

Definition item {A} (l : list A) (k : Z) : option A :=
  if 0 <=? k then l !! Z.to_nat k else None.

Definition read {A} (l : list A) (idx : list Z) : option (list A) :=
  mapM (item l) idx.

Definition convert (os : list pyobj) : result (list double) :=
  match mapM float_of os with
  | Some ds => Ok ds
  | None => Raised ConversionError
  end.

(** The items of a view, cast to [float64] in row-major order. *)
Definition astype_float64 (st : storage) (idx : list Z)
    : result (list double) :=
  match st with
  | F64 l => match read l idx with Some ds => Ok ds | None => Crashed end
  | I64 l =>
      match read l idx with
      | Some zs => Ok (of_Z <$> zs)
      | None => Crashed
      end
  | Obj l =>
      match read l idx with Some os => convert os | None => Crashed end
  end.

Definition new_array (l : loc) (dims : list Z) : ndarray :=
  at_least_1d (NdArray l 0 dims (c_strides dims)).

(** [np.ascontiguousarray(x, dtype=np.float64)]: the array itself when
    it is already [float64] and C-contiguous, a converted copy in a new
    allocation otherwise. *)
Definition ascontiguousarray (x : array_like) : py ndarray :=
  match x with
  | Array a =>
      st ← deref (data a);
      if is_float64 st && c_contiguous a then mret (at_least_1d a)
      else
        ds ← lift (astype_float64 st
                     (indices (shape a) (strides a) (offset a)));
        l ← alloc (F64 ds);
        mret (new_array l (shape a))
  | Sequence dims items =>
      ds ← lift (convert items);
      l ← alloc (F64 ds);
      mret (new_array l dims)
  end.

(** *** ctypes *)

(** [np.ctypeslib.ndpointer(dtype=np.float64, ndim=n,
    flags='C_CONTIGUOUS').from_param(a)] *)
Definition from_param (n : nat) (a : ndarray) : py unit :=
  st ← deref (data a);
  if negb (is_float64 st) then raise (ArgumentError WrongDtype)
  else if negb (ndim a =? n)%nat then raise (ArgumentError WrongNdim)
  else if negb (c_contiguous a) then raise (ArgumentError WrongFlags)
  else mret ().

(** [ctypes.c_size_t(n)]: no overflow check, the value is reduced. *)
Definition c_size_t (n : Z) : Z := SizeT.wrap n.

(** The foreign call: the callee sees the allocation from the array's
    first item to its end, and what it leaves there is what the store
    holds afterwards. *)
Definition foreign_call (f : C.buffer → C.outcome C.buffer)
    (a : ndarray) : py unit := λ h,
  match h !! data a with
  | Some (F64 l) =>
      let off := Z.to_nat (offset a) in
      match f (C.on_entry (drop off l)) with
      | C.Returned b =>
          (Ok (), <[data a := F64 (take off l ++ C.cells b)]> h)
      | _ => (Crashed, h)
      end
  | _ => (Crashed, h)
  end.

(** [lib.fill_array(arr, size)] under the declared [argtypes]. *)
Definition lib_fill_array (arr : ndarray) (size : Z) : py unit :=
  from_param 1 arr;;
  foreign_call (λ b, C.fill_array b (c_size_t size)) arr.

(** [lib2d.fill_array_2d(arr, rows, cols)] under the declared
    [argtypes]. *)
Definition lib2d_fill_array_2d (arr : ndarray) (rows cols : Z) : py unit :=
  from_param 2 arr;;
  foreign_call (λ b, C.fill_array_2d b (c_size_t rows) (c_size_t cols)) arr.

(** *** The wrappers *)

(** [def fill_array(arr)] *)
Definition fill_array (arr : array_like) : py unit :=
  arr ← ascontiguousarray arr;
  let size := size arr in
  lib_fill_array arr size.

(** [def fill_array_2d(arr)]; [rows, cols = arr.shape] raises unless the
    shape has exactly two entries. *)
Definition fill_array_2d (arr : array_like) : py unit :=
  arr ← ascontiguousarray arr;
  match shape arr with
  | [rows; cols] => lib2d_fill_array_2d arr rows cols
  | _ => raise UnpackError
  end.

(** *** The notebook's usage cells *)

(** [np.zeros(dims, dtype=np.float64)]: a new C-order array of zeros. *)
Definition zeros (dims : list nat) : py ndarray :=
  let dims := Z.of_nat <$> dims in
  l ← alloc (F64 (replicate (Z.to_nat (prod dims)) zero));
  mret (NdArray l 0 dims (c_strides dims)).

(** [array = np.zeros(n, dtype=np.float64); fill_array(array)], giving
    the array the cell then prints; the notebook takes [n = 10]. *)
Definition usage_example (n : nat) : py ndarray :=
  array ← zeros [n];
  fill_array (Array array);;
  mret array.

(** [array_2d = np.zeros((rows, cols), dtype=np.float64);
    fill_array_2d(array_2d)]; the notebook takes [(3, 4)]. *)
Definition usage_example_2d (rows cols : nat) : py ndarray :=
  array_2d ← zeros [rows; cols];
  fill_array_2d (Array array_2d);;
  mret array_2d.

(** *** Vocabulary for the statements *)

Inductive wrapper : Type := OneD | TwoD.

Definition run (w : wrapper) : array_like → py unit :=
  match w with OneD => fill_array | TwoD => fill_array_2d end.

(** What a wrapper does once its argument is coerced. *)
Definition native_stage (w : wrapper) (arr : ndarray) : py unit :=
  match w with
  | OneD => lib_fill_array arr (size arr)
  | TwoD =>
      match shape arr with
      | [rows; cols] => lib2d_fill_array_2d arr rows cols
      | _ => raise UnpackError
      end
  end.

Definition wrapper_ndim (w : wrapper) : nat :=
  match w with OneD => 1 | TwoD => 2 end.

Definition input_shape (x : array_like) : list Z :=
  match x with Array a => shape a | Sequence dims _ => dims end.

Definition input_ndim (x : array_like) : nat := length (input_shape x).

Definition input_size (x : array_like) : Z := prod (input_shape x).

(** The dimensionalities a wrapper fills: the 1-D one takes a vector or
    a scalar (promoted by [ndmin=1]), the 2-D one a matrix. *)
Definition accepts (w : wrapper) (x : array_like) : Prop :=
  match w with
  | OneD => (input_ndim x ≤ 1)%nat
  | TwoD => input_ndim x = 2%nat
  end.

Definition len (st : storage) : nat :=
  match st with
  | F64 l => length l
  | I64 l => length l
  | Obj l => length l
  end.

(** A view NumPy can hand out: as many strides as dimensions, every
    dimension and the item count a [size_t], every item inside the
    allocation. *)
Definition valid_view (h : heap) (a : ndarray) : Prop :=
  match h !! data a with
  | Some st =>
      length (strides a) = length (shape a)
      ∧ Forall SizeT.in_range (shape a)
      ∧ size a ≤ SizeT.max
      ∧ Forall (λ k, 0 ≤ k < Z.of_nat (len st))
               (indices (shape a) (strides a) (offset a))
  | None => False
  end.

Definition valid_input (h : heap) (x : array_like) : Prop :=
  match x with
  | Array a => valid_view h a
  | Sequence dims items =>
      Forall SizeT.in_range dims
      ∧ prod dims ≤ SizeT.max
      ∧ Z.of_nat (length items) = prod dims
  end.

(** The Python objects NumPy has to pass through [float()]. *)
Definition objects (h : heap) (x : array_like) : list pyobj :=
  match x with
  | Array a =>
      match h !! data a with
      | Some (Obj l) =>
          default [] (read l (indices (shape a) (strides a) (offset a)))
      | _ => []
      end
  | Sequence _ items => items
  end.

Definition numeric (h : heap) (x : array_like) : Prop :=
  Forall (λ o, is_Some (float_of o)) (objects h x).

Definition non_numeric (h : heap) (x : array_like) : Prop :=
  Exists (λ o, float_of o = None) (objects h x).

(** The input is an array that is already [float64] and C-contiguous. *)
Definition already_contiguous_float64 (h : heap) (x : array_like) : bool :=
  match x with
  | Array a =>
      match h !! data a with
      | Some st => is_float64 st && c_contiguous a
      | None => false
      end
  | Sequence _ _ => false
  end.

(** [new] written over [l] from position [off] on. *)
Definition overwrite (l : list double) (off : Z) (new : list double)
    : list double :=
  take (Z.to_nat off) l ++ new ++ drop (Z.to_nat off + length new) l.

(** [arr[i]] and [arr[i, j]] for a [float64] array: the item at the
    position the strides give. *)
Definition position (a : ndarray) (idx : list Z) : Z :=
  offset a + foldr Z.add 0 (zip_with Z.mul idx (strides a)).

Definition getitem (h : heap) (a : ndarray) (idx : list Z)
    : option double :=
  match h !! data a with
  | Some (F64 l) => item l (position a idx)
  | _ => None
  end.

(** Row-major strides, read from the first dimension on. *)
Fixpoint row_major (dims strides : list Z) : bool :=
  match dims, strides with
  | d :: ds, t :: ts => ((d =? 1) || (t =? prod ds)) && row_major ds ts
  | _, _ => true
  end.

(** The error names of the specification. *)
Inductive error_kind : Type := TypeConversionError | ShapeMismatchError.

Definition spec_error (e : exn) : option error_kind :=
  match e with
  | ConversionError => Some TypeConversionError
  | UnpackError => Some ShapeMismatchError
  | ArgumentError WrongNdim => Some ShapeMismatchError
  | ArgumentError _ => None
  end.

Definition fails_with (k : error_kind) (r : result unit) : Prop :=
  ∃ e, r = Raised e ∧ spec_error e = Some k.

End Py.

(** * Proofs *)

Import Double.

(** Closing the side conditions of concrete instances. *)
Ltac in_range := unfold SizeT.in_range; vm_compute; split; discriminate.

Ltac valid_view_of H :=
  unfold Py.valid_view; rewrite H;
  split; [reflexivity|];
  split; [repeat constructor; vm_compute; discriminate|];
  split; [vm_compute; discriminate|];
  repeat constructor; vm_compute; congruence.

(** ** The cast of an integer to a double *)

Section DoubleFacts.
Import Double.

Lemma digits2_pos_lower (p : positive) :
  2 ^ (Zpos (digits2_pos p) - 1) ≤ Zpos p.
Proof.
  induction p as [p IH|p IH|]; simpl digits2_pos.
  - rewrite Pos2Z.inj_succ.
    replace (Z.succ (Zpos (digits2_pos p)) - 1)
      with (Z.succ (Zpos (digits2_pos p) - 1)) by lia.
    rewrite Z.pow_succ_r by lia. lia.
  - rewrite Pos2Z.inj_succ.
    replace (Z.succ (Zpos (digits2_pos p)) - 1)
      with (Z.succ (Zpos (digits2_pos p) - 1)) by lia.
    rewrite Z.pow_succ_r by lia. lia.
  - simpl. lia.
Qed.

Lemma digits2_pos_bound (p : positive) (n : Z) :
  Zpos p < 2 ^ n → 0 ≤ n → Zpos (digits2_pos p) ≤ n.
Proof.
  intros Hlt Hn.
  destruct (Z_le_gt_dec (Zpos (digits2_pos p)) n) as [|Hgt]; [done|].
  pose proof (digits2_pos_lower p) as Hlow.
  assert (2 ^ n ≤ 2 ^ (Zpos (digits2_pos p) - 1))
    by (apply Z.pow_le_mono_r; lia).
  lia.
Qed.

Lemma digits2_pos_shift (p n : positive) :
  digits2_pos (Pos.iter xO p n) = (digits2_pos p + n)%positive.
Proof.
  induction n as [|n IH] using Pos.peano_ind.
  - simpl. lia.
  - rewrite Pos.iter_succ. simpl. rewrite IH. lia.
Qed.

Lemma Zpos_shift (p n : positive) :
  Zpos (Pos.iter xO p n) = Zpos p * 2 ^ Zpos n.
Proof.
  induction n as [|n IH] using Pos.peano_ind.
  - simpl. lia.
  - rewrite Pos.iter_succ, Pos2Z.inj_xO, IH, Pos2Z.inj_succ.
    rewrite Z.pow_succ_r by lia. lia.
Qed.

(** A mantissa already in canonical position is kept as it is. *)
Lemma binary_round_aux_canonical (s : bool) (m : positive) (e : Z) :
  fexp prec emax (Zpos (digits2_pos m) + e) = e →
  e ≤ emax - prec →
  binary_round_aux prec emax s (Zpos m) e loc_Exact = S754_finite s m e.
Proof.
  intros Hc He.
  unfold binary_round_aux, shr_fexp. simpl Zdigits2.
  rewrite Hc, Z.sub_diag. simpl.
  rewrite Hc, Z.sub_diag. simpl.
  destruct (Z.leb_spec e (emax - prec)); [done|lia].
Qed.

Lemma of_Z_small (p : positive) :
  Zpos p < 2 ^ prec →
  ∃ m e, of_Z (Zpos p) = S754_finite false m e
         ∧ e ≤ 0 ∧ Zpos m = Zpos p * 2 ^ (- e).
Proof.
  intros Hlt.
  pose proof (digits2_pos_bound p prec Hlt ltac:(done)) as Hd.
  unfold of_Z, binary_normalize, binary_round.
  assert (Hf : fexp prec emax (Zpos (digits2_pos p) + 0)
               = Zpos (digits2_pos p) - prec).
  { unfold fexp, emin, prec, emax in *. lia. }
  rewrite Hf. unfold shl_align.
  destruct (Zpos (digits2_pos p) - prec - 0) as [|q|q] eqn:Hq.
  - exists p, 0. split; [|simpl; lia].
    apply binary_round_aux_canonical; [|unfold emax, prec; lia].
    rewrite Hf. unfold prec in *. lia.
  - unfold prec in *. lia.
  - exists (Pos.iter xO p q), (Zpos (digits2_pos p) - prec).
    split; [|split].
    + apply binary_round_aux_canonical; [|unfold emax, prec in *; lia].
      rewrite digits2_pos_shift. unfold fexp, emin, prec, emax in *. lia.
    + lia.
    + rewrite Zpos_shift. f_equal. f_equal. lia.
Qed.

(** Every integer up to [2^53] is a double: the cast is exact. *)
Lemma of_Z_exact (k : Z) : 0 ≤ k ≤ 2 ^ prec → exact (of_Z k) k.
Proof.
  intros [H0 Hk]. unfold exact.
  destruct (Z.eq_dec k (2 ^ prec)) as [->|Hne]; [by vm_compute|].
  destruct k as [|p|p]; [done| |lia].
  destruct (of_Z_small p) as (m & e & -> & He & Hm); [lia|].
  unfold exactb, signed. simpl cond_Zopp.
  destruct (Z.leb_spec 0 e).
  - assert (e = 0) as -> by lia. simpl in Hm. lia.
  - lia.
Qed.

End DoubleFacts.

(** ** Loops and the native routines *)

Section Loops.
Import C.
Context {S : Type}.
Implicit Types (body : Z → S → outcome S) (s : S).

Lemma bind_ext {A B} (m : outcome A) (k1 k2 : A → outcome B) :
  (∀ a, k1 a = k2 a) → bind m k1 = bind m k2.
Proof. intros H. destruct m; simpl; auto. Qed.

Lemma incr_no_wrap (i n : Z) :
  0 ≤ i < n → n ≤ SizeT.max → SizeT.incr i = i + 1.
Proof.
  intros Hi Hn. unfold SizeT.incr, SizeT.add, SizeT.wrap.
  apply Z.mod_small. unfold SizeT.max in Hn. lia.
Qed.

(** A loop counting up to a bound unrolls to its index range, given
    fuel for one test more than it has iterations. *)
Lemma for_loop_counted body (n : Z) (fuel : nat) :
  ∀ i s, 0 ≤ i ≤ n → n ≤ SizeT.max → (Z.to_nat (n - i) < fuel)%nat →
  for_loop fuel (λ i, i <? n) body i s = iterate body (seqZ i (n - i)) s.
Proof.
  induction fuel as [|fuel IH]; intros i s Hi Hn Hfuel; [lia|].
  simpl. destruct (Z.ltb_spec i n) as [Hlt|Hge].
  - rewrite (seqZ_cons i) by lia. simpl.
    apply bind_ext. intros s'.
    rewrite (incr_no_wrap i n) by lia.
    rewrite IH by lia. do 2 f_equal; lia.
  - by rewrite seqZ_nil by lia.
Qed.

Lemma iterate_app body (l1 l2 : list Z) s :
  iterate body (l1 ++ l2) s = bind (iterate body l1 s) (iterate body l2).
Proof.
  revert s. induction l1 as [|k l1 IH]; intros s; simpl; [done|].
  destruct (body k s); simpl; auto.
Qed.

Lemma iterate_ext body1 body2 (l : list Z) s :
  (∀ k s', k ∈ l → body1 k s' = body2 k s') →
  iterate body1 l s = iterate body2 l s.
Proof.
  revert s. induction l as [|k l IH]; intros s H; simpl; [done|].
  rewrite H by left. apply bind_ext. intros s'. apply IH.
  intros k' s'' Hk'. apply H. by right.
Qed.

Lemma iterate_fmap body (g : Z → Z) (l : list Z) s :
  iterate body (g <$> l) s = iterate (λ k, body (g k)) l s.
Proof.
  revert s. induction l as [|k l IH]; intros s; simpl; [done|].
  apply bind_ext. intros s'. apply IH.
Qed.

End Loops.

Section NativeFill.
Import C Double.

Lemma length_fill_values (n : Z) : length (fill_values n) = Z.to_nat n.
Proof. unfold fill_values. by rewrite length_fmap, length_seqZ. Qed.

Lemma lookup_fill_values (n k : Z) :
  0 ≤ k < n → fill_values n !! Z.to_nat k = Some (of_Z k).
Proof.
  intros Hk. unfold fill_values.
  rewrite list_lookup_fmap, lookup_seqZ_lt by lia.
  simpl. do 2 f_equal. lia.
Qed.

Lemma fill_values_S (n : nat) :
  fill_values (Z.of_nat (Datatypes.S n))
  = fill_values (Z.of_nat n) ++ [of_Z (Z.of_nat n)].
Proof. unfold fill_values. by rewrite seqZ_S, fmap_app. Qed.

(** What the unrolled 1-D loop does to a buffer: the first [n] slots
    are overwritten in order, the rest is kept; it is undefined as soon
    as [n] exceeds the allocation. *)
Lemma iterate_fill (n : nat) (l : list double) (log : list Z) :
  iterate fill_array_body (seqZ 0 (Z.of_nat n)) (Buffer l log)
  = if decide (n ≤ length l)%nat
    then Returned (Buffer (fill_values (Z.of_nat n) ++ drop n l)
                          (log ++ seqZ 0 (Z.of_nat n)))
    else Undefined.
Proof.
  induction n as [|n IH].
  - simpl. by rewrite app_nil_r.
  - rewrite seqZ_S, Z.add_0_l, iterate_app, IH. simpl.
    destruct (decide (n ≤ length l)%nat) as [Hn|Hn]; simpl.
    + unfold fill_array_body, store. simpl.
      rewrite length_app, length_fill_values, length_drop.
      destruct (decide (Datatypes.S n ≤ length l)%nat) as [HS|HS].
      * rewrite decide_True by lia.
        rewrite insert_app_r_alt by (rewrite length_fill_values; lia).
        rewrite length_fill_values, Nat.sub_diag.
        destruct (drop n l) as [|x l'] eqn:Hd.
        { apply (f_equal length) in Hd. rewrite length_drop in Hd.
          simpl in Hd. lia. }
        simpl. rewrite fill_values_S.
        replace (Datatypes.S n) with (n + 1)%nat by lia.
        rewrite <- drop_drop, Hd. simpl.
        by rewrite drop_0, <- !(assoc_L (++)).
      * rewrite decide_False by lia. done.
    + rewrite decide_False by lia. done.
Qed.

Lemma iterate_fill_result (arr : buffer) (n : Z) :
  0 ≤ n → iterate fill_array_body (seqZ 0 n) arr = fill_result arr n.
Proof.
  intros Hn. destruct arr as [l log]. unfold fill_result. simpl.
  rewrite <- (Z2Nat.id n) at 1 by done. rewrite iterate_fill.
  destruct (decide (Z.to_nat n ≤ length l)%nat).
  - rewrite decide_True by lia. by rewrite Z2Nat.id.
  - by rewrite decide_False by lia.
Qed.

Lemma fill_array_fuel_spec (fuel : nat) (arr : buffer) (n : Z) :
  SizeT.in_range n → (Z.to_nat n < fuel)%nat →
  fill_array_fuel fuel arr n = fill_result arr n.
Proof.
  intros [H0 Hn] Hfuel. unfold fill_array_fuel.
  rewrite for_loop_counted by (rewrite ?Z.sub_0_r; lia).
  rewrite Z.sub_0_r. by apply iterate_fill_result.
Qed.

(** The fuel the model gives the 1-D routine is enough. *)
Lemma fill_array_spec (arr : buffer) (n : Z) :
  SizeT.in_range n → fill_array arr n = fill_result arr n.
Proof. intros Hn. apply fill_array_fuel_spec; [done|lia]. Qed.

Lemma fill_array_2d_body_no_wrap (cols i j : Z) (arr : buffer) :
  0 ≤ i → 0 ≤ cols → 0 ≤ j → i * cols + j ≤ SizeT.max →
  fill_array_2d_body cols i j arr = fill_array_body (i * cols + j) arr.
Proof.
  intros Hi Hc Hj Hmax. unfold fill_array_2d_body, fill_array_body.
  unfold SizeT.add, SizeT.mul, SizeT.wrap. unfold SizeT.max in Hmax.
  rewrite (Z.mod_small (i * cols)) by nia.
  by rewrite Z.mod_small by nia.
Qed.

Lemma fill_array_2d_row_spec (fuel : nat) (rows cols i : Z) (arr : buffer) :
  0 ≤ i < rows → SizeT.in_range cols → rows * cols ≤ SizeT.max →
  (Z.to_nat cols < fuel)%nat →
  fill_array_2d_row fuel cols i arr
  = iterate fill_array_body (seqZ (i * cols) cols) arr.
Proof.
  intros Hi [Hc0 Hc] Hmax Hfuel. unfold fill_array_2d_row.
  rewrite for_loop_counted by (rewrite ?Z.sub_0_r; lia).
  rewrite Z.sub_0_r.
  rewrite <- (Z.add_0_r (i * cols)) at 1.
  rewrite <- fmap_add_seqZ, iterate_fmap.
  apply iterate_ext. intros j s' Hj. apply elem_of_seqZ in Hj.
  apply fill_array_2d_body_no_wrap; nia.
Qed.

(** Row by row is the same walk as slot by slot. *)
Lemma iterate_rows (cols : Z) (r : nat) (arr : buffer) :
  0 ≤ cols →
  iterate (λ i, iterate fill_array_body (seqZ (i * cols) cols))
          (seqZ 0 (Z.of_nat r)) arr
  = iterate fill_array_body (seqZ 0 (Z.of_nat r * cols)) arr.
Proof.
  intros Hc. induction r as [|r IH]; [done|].
  rewrite seqZ_S, Z.add_0_l, iterate_app, IH.
  replace (Z.of_nat (Datatypes.S r) * cols)
    with (Z.of_nat r * cols + cols) by lia.
  rewrite seqZ_app by nia. rewrite iterate_app, Z.add_0_l.
  apply bind_ext. intros s'. simpl.
  by destruct (iterate fill_array_body (seqZ (Z.of_nat r * cols) cols) s').
Qed.

Lemma fill_array_2d_fuel_spec (fuel_i fuel_j : nat) (arr : buffer)
    (rows cols : Z) :
  SizeT.in_range rows → SizeT.in_range cols → rows * cols ≤ SizeT.max →
  (Z.to_nat rows < fuel_i)%nat → (Z.to_nat cols < fuel_j)%nat →
  fill_array_2d_fuel fuel_i fuel_j arr rows cols
  = fill_result arr (rows * cols).
Proof.
  intros [Hr0 Hr] [Hc0 Hc] Hmax Hfi Hfj. unfold fill_array_2d_fuel.
  rewrite for_loop_counted by (rewrite ?Z.sub_0_r; lia).
  rewrite Z.sub_0_r.
  rewrite (iterate_ext _
    (λ i, iterate fill_array_body (seqZ (i * cols) cols))).
  - rewrite <- (Z2Nat.id rows) at 1 by done.
    rewrite iterate_rows by done. rewrite Z2Nat.id by done.
    apply iterate_fill_result. nia.
  - intros i s' Hi. apply elem_of_seqZ in Hi.
    apply (fill_array_2d_row_spec _ rows); [lia|done|done|lia].
Qed.

(** The fuel the model gives the 2-D routine is enough: it ends as the
    closed form says, never by running out. *)
Lemma fill_array_2d_spec (arr : buffer) (rows cols : Z) :
  SizeT.in_range rows → SizeT.in_range cols → rows * cols ≤ SizeT.max →
  fill_array_2d arr rows cols = fill_result arr (rows * cols).
Proof.
  intros Hr Hc Hmax. apply fill_array_2d_fuel_spec; [done..|lia|lia].
Qed.

Lemma fill_result_full (arr : buffer) (n : Z) :
  Z.of_nat (length (cells arr)) = n →
  fill_result arr n
  = Returned (Buffer (fill_values n) (stores arr ++ seqZ 0 n)).
Proof.
  intros Hlen. unfold fill_result. rewrite decide_True by lia.
  rewrite drop_ge by lia. by rewrite app_nil_r.
Qed.

Lemma fill_result_returned (arr : buffer) (n : Z) :
  0 ≤ n ≤ Z.of_nat (length (cells arr)) →
  fill_result arr n
  = Returned (Buffer (fill_values n ++ drop (Z.to_nat n) (cells arr))
                     (stores arr ++ seqZ 0 n)).
Proof. intros Hn. unfold fill_result. by rewrite decide_True by lia. Qed.

(** Filling again changes no cell: the same values go to the same
    slots. *)
Lemma fill_result_twice (arr : buffer) (n : Z) :
  0 ≤ n ≤ Z.of_nat (length (cells arr)) →
  ∃ once twice,
    fill_result arr n = Returned once
    ∧ fill_result once n = Returned twice
    ∧ cells twice = cells once.
Proof.
  intros Hn. eexists _, _. split; [by apply fill_result_returned|].
  split.
  - apply fill_result_returned. cbn [cells].
    rewrite length_app, length_fill_values, length_drop. lia.
  - cbn [cells]. f_equal.
    by rewrite drop_app_length' by (by rewrite length_fill_values).
Qed.

Lemma fill_result_zero (arr : buffer) : fill_result arr 0 = Returned arr.
Proof.
  destruct arr as [l log]. unfold fill_result. cbn [cells stores].
  rewrite decide_True by lia. simpl. by rewrite app_nil_r.
Qed.

End NativeFill.

(** ** Views and contiguity *)

Section Views.
Import Py.

Lemma prod_app (l1 l2 : list Z) : prod (l1 ++ l2) = prod l1 * prod l2.
Proof.
  unfold prod. induction l1 as [|d l1 IH]; simpl; [lia|].
  rewrite IH. lia.
Qed.

Lemma prod_rev (l : list Z) : prod (rev l) = prod l.
Proof.
  induction l as [|d l IH]; [done|].
  simpl rev. rewrite prod_app, IH. unfold prod. simpl. lia.
Qed.

Lemma prod_nonneg (dims : list Z) :
  Forall (λ d, 0 ≤ d) dims → 0 ≤ prod dims.
Proof.
  unfold prod. induction 1 as [|d dims Hd _ IH]; simpl; [lia|nia].
Qed.

Lemma prod_zero (dims : list Z) :
  existsb (Z.eqb 0) dims = true → prod dims = 0.
Proof.
  unfold prod. induction dims as [|d dims IH]; [discriminate|].
  cbn [existsb foldr]. intros [H|H]%orb_true_iff.
  - apply Z.eqb_eq in H as <-. lia.
  - specialize (IH H). lia.
Qed.

Lemma no_zero_positive (dims : list Z) :
  Forall (λ d, 0 ≤ d) dims → existsb (Z.eqb 0) dims = false →
  Forall (λ d, 0 < d) dims.
Proof.
  induction 1 as [|d dims Hd _ IH]; [constructor|].
  cbn [existsb]. intros [H1 H2]%orb_false_iff.
  apply Z.eqb_neq in H1. constructor; [lia|auto].
Qed.

Lemma strides_match_snoc (l1 l2 : list Z) (d t sd : Z) :
  length l1 = length l2 →
  strides_match (l1 ++ [d]) (l2 ++ [t]) sd
  = strides_match l1 l2 sd && ((d =? 1) || (t =? sd * prod l1)).
Proof.
  revert l2 sd. induction l1 as [|d1 l1 IH]; intros [|t1 l2] sd Hlen;
    simplify_eq/=.
  - rewrite Z.mul_1_r. destruct (d =? 1); simpl; [done|].
    by rewrite andb_true_r.
  - rewrite !IH by done. unfold prod. simpl.
    destruct (Z.eqb_spec d1 1) as [->|_].
    + by rewrite Z.mul_1_l.
    + by rewrite Z.mul_assoc, andb_assoc.
Qed.

Lemma strides_match_row_major (dims strides : list Z) :
  length strides = length dims →
  strides_match (rev dims) (rev strides) 1 = row_major dims strides.
Proof.
  revert strides. induction dims as [|d dims IH]; intros [|t strides] Hlen;
    simplify_eq/=; [done|].
  rewrite strides_match_snoc by (by rewrite !length_rev).
  rewrite IH, prod_rev, Z.mul_1_l by done. apply andb_comm.
Qed.

Lemma length_bind_const {A B} (f : A → list B) (l : list A) (n : nat) :
  (∀ x, x ∈ l → length (f x) = n) →
  length (l ≫= f) = (length l * n)%nat.
Proof.
  induction l as [|x l IH]; intros H; [done|].
  rewrite bind_cons, length_app, H, IH by (set_solver). simpl. lia.
Qed.

Lemma length_indices (dims strides : list Z) (off : Z) :
  length strides = length dims → Forall (λ d, 0 ≤ d) dims →
  length (indices dims strides off) = Z.to_nat (prod dims).
Proof.
  intros Hlen Hdims. revert strides off Hlen.
  induction Hdims as [|d dims Hd Hdims IH]; intros [|t strides] off Hlen;
    simplify_eq/=; [done|].
  rewrite (length_bind_const _ _ (Z.to_nat (prod dims))).
  - rewrite length_seqZ. pose proof (prod_nonneg dims Hdims).
    unfold prod in *. simpl. nia.
  - intros i _. by apply IH.
Qed.

Lemma bind_seqZ_blocks (off p : Z) (n : nat) :
  0 ≤ p →
  seqZ 0 (Z.of_nat n) ≫= (λ i, seqZ (off + i * p) p)
  = seqZ off (Z.of_nat n * p).
Proof.
  intros Hp. induction n as [|n IH]; [done|].
  rewrite seqZ_S, bind_app, IH, Z.add_0_l. simpl. rewrite app_nil_r.
  replace (Z.of_nat (S n) * p) with (Z.of_nat n * p + p) by lia.
  by rewrite seqZ_app by nia.
Qed.

(** The items of a C-contiguous view lie next to each other, in order. *)
Lemma indices_row_major (dims strides : list Z) (off : Z) :
  length strides = length dims → Forall (λ d, 0 < d) dims →
  row_major dims strides = true →
  indices dims strides off = seqZ off (prod dims).
Proof.
  intros Hlen Hdims. revert strides off Hlen.
  induction Hdims as [|d dims Hd Hdims IH]; intros [|t strides] off Hlen;
    simplify_eq/=; [done|].
  intros [Ht Hrm]%andb_true_iff.
  assert (Hp : 0 ≤ prod dims).
  { apply prod_nonneg. eapply Forall_impl; [done|]. simpl. lia. }
  rewrite (list_bind_ext _ (λ i, seqZ (off + i * t) (prod dims)) _ (seqZ 0 d))
    by (intros; auto).
  apply orb_true_iff in Ht as [Hd1|Ht].
  - apply Z.eqb_eq in Hd1 as ->. unfold prod. simpl.
    rewrite app_nil_r. f_equal; lia.
  - apply Z.eqb_eq in Ht as ->.
    rewrite <- (Z2Nat.id d) by lia. rewrite bind_seqZ_blocks by done.
    done.
Qed.

Lemma c_contiguous_zero_or_row_major (a : ndarray) :
  length (strides a) = length (shape a) →
  c_contiguous a = true →
  existsb (Z.eqb 0) (shape a) = true
  ∨ existsb (Z.eqb 0) (shape a) = false
    ∧ row_major (shape a) (strides a) = true.
Proof.
  intros Hlen. unfold c_contiguous.
  rewrite strides_match_row_major by done.
  destruct (existsb _ _); simpl; auto.
Qed.

(** A valid contiguous view with items occupies
    [offset .. offset + size) of its allocation. *)
Lemma contiguous_extent (a : ndarray) (n : nat) :
  length (strides a) = length (shape a) →
  Forall SizeT.in_range (shape a) →
  Forall (λ k, 0 ≤ k < Z.of_nat n)
         (indices (shape a) (strides a) (offset a)) →
  c_contiguous a = true →
  size a = 0 ∨ (0 < size a ∧ 0 ≤ offset a ∧ offset a + size a ≤ Z.of_nat n).
Proof.
  intros Hlen Hdims Hidx Hc.
  assert (Hnn : Forall (λ d, 0 ≤ d) (shape a)).
  { eapply Forall_impl; [done|]. by intros d [? ?]. }
  destruct (c_contiguous_zero_or_row_major a Hlen Hc) as [Hz|[Hnz Hrm]].
  - left. by apply prod_zero.
  - right. pose proof (no_zero_positive _ Hnn Hnz) as Hpos.
    rewrite indices_row_major in Hidx by done.
    rewrite Forall_seqZ in Hidx.
    assert (0 < size a).
    { unfold size. clear -Hpos. unfold prod.
      induction Hpos; simpl; nia. }
    pose proof (Hidx (offset a) ltac:(unfold size in *; lia)).
    pose proof (Hidx (offset a + size a - 1) ltac:(unfold size in *; lia)).
    lia.
Qed.

End Views.

(** ** The coercion *)

Section Coercion.
Import Py.
Implicit Types (h : heap) (a : ndarray) (x : array_like).

Lemma bind_run {A B} (m : py A) (k : A → py B) h :
  (m ≫= k) h
  = match m h with
    | (Ok v, h') => k v h'
    | (Raised e, h') => (Raised e, h')
    | (Crashed, h') => (Crashed, h')
    end.
Proof. reflexivity. Qed.

Lemma run_stages (w : wrapper) x :
  run w x = ascontiguousarray x ≫= native_stage w.
Proof. by destruct w. Qed.

Lemma read_valid {A} (l : list A) (idx : list Z) :
  Forall (λ k, 0 ≤ k < Z.of_nat (length l)) idx →
  ∃ xs, read l idx = Some xs ∧ length xs = length idx.
Proof.
  intros Hidx. destruct (read l idx) as [xs|] eqn:Hr.
  - exists xs. split; [done|]. symmetry. by eapply length_mapM.
  - apply mapM_None in Hr. apply Exists_exists in Hr as (k & Hk & Hnone).
    rewrite Forall_forall in Hidx. specialize (Hidx k Hk).
    unfold item in Hnone. rewrite (proj2 (Z.leb_le 0 k)) in Hnone by lia.
    apply lookup_ge_None in Hnone. lia.
Qed.

Lemma in_range_nonneg (dims : list Z) :
  Forall SizeT.in_range dims → Forall (λ d, 0 ≤ d) dims.
Proof. intros Hd. eapply Forall_impl; [done|]. by intros d [? ?]. Qed.

(** Reading the items of a valid view never leaves the allocation. *)
Lemma astype_float64_valid (st : storage) (dims strides : list Z) (off : Z) :
  length strides = length dims → Forall (λ d, 0 ≤ d) dims →
  Forall (λ k, 0 ≤ k < Z.of_nat (len st)) (indices dims strides off) →
  match st with
  | Obj l =>
      ∃ os, read l (indices dims strides off) = Some os
            ∧ astype_float64 st (indices dims strides off) = convert os
  | _ =>
      ∃ ds, astype_float64 st (indices dims strides off) = Ok ds
            ∧ length ds = Z.to_nat (prod dims)
  end.
Proof.
  intros Hlen Hdims Hidx.
  pose proof (length_indices dims strides off Hlen Hdims) as Hli.
  destruct st as [l|l|l]; simpl in *;
    destruct (read_valid l _ Hidx) as (xs & Hr & Hxs); rewrite Hr.
  - exists xs. split; [done|lia].
  - exists (Double.of_Z <$> xs). rewrite length_fmap. split; [done|lia].
  - by exists xs.
Qed.

Lemma convert_numeric (os : list pyobj) :
  Forall (λ o, is_Some (float_of o)) os →
  ∃ ds, convert os = Ok ds ∧ length ds = length os.
Proof.
  intros Hnum. unfold convert.
  destruct (mapM float_of os) as [ds|] eqn:Hm.
  - exists ds. split; [done|]. symmetry. by eapply length_mapM.
  - apply mapM_None in Hm. apply Exists_exists in Hm as (o & Ho & Hnone).
    rewrite Forall_forall in Hnum. destruct (Hnum o Ho) as [d Hd].
    congruence.
Qed.

Lemma convert_non_numeric (os : list pyobj) :
  Exists (λ o, float_of o = None) os → convert os = Raised ConversionError.
Proof.
  intros Hex. unfold convert. by rewrite (proj2 (mapM_None _ _) Hex).
Qed.

(** The three ways the coercion ends on a valid input. *)
Lemma ascontiguousarray_in_place h x :
  already_contiguous_float64 h x = true →
  ∃ a l, x = Array a ∧ h !! data a = Some (F64 l)
         ∧ c_contiguous a = true
         ∧ ascontiguousarray x h = (Ok (at_least_1d a), h).
Proof.
  destruct x as [a|dims items]; simpl; [|done].
  destruct (h !! data a) as [st|] eqn:Hst; [|done].
  intros [Hf Hc]%andb_true_iff. destruct st as [l| |]; try done.
  exists a, l. repeat split; [done..|].
  unfold ascontiguousarray. rewrite bind_run. unfold deref. rewrite Hst.
  simpl. by rewrite Hc.
Qed.

Lemma ascontiguousarray_copy h x :
  valid_input h x → numeric h x →
  already_contiguous_float64 h x = false →
  ∃ ds, length ds = Z.to_nat (input_size x)
        ∧ ascontiguousarray x h
          = (Ok (new_array (fresh (dom h)) (input_shape x)),
             <[fresh (dom h) := F64 ds]> h).
Proof.
  destruct x as [a|dims items]; simpl.
  - unfold valid_view, numeric. simpl.
    destruct (h !! data a) as [st|] eqn:Hst; [|done].
    intros (Hlen & Hdims & Hsz & Hidx) Hnum Hnot.
    pose proof (astype_float64_valid st _ _ (offset a) Hlen
                  (in_range_nonneg _ Hdims) Hidx) as Hread.
    assert (∃ ds, astype_float64 st
                    (indices (shape a) (strides a) (offset a)) = Ok ds
                  ∧ length ds = Z.to_nat (prod (shape a)))
      as (ds & Has & Hds).
    { destruct st as [l|l|l]; [done|done|].
      destruct Hread as (os & Hr & ->). rewrite Hr in Hnum. simpl in Hnum.
      destruct (convert_numeric os Hnum) as (ds & Hc & Hl).
      exists ds. split; [done|].
      rewrite Hl. apply length_mapM in Hr. rewrite <- Hr.
      apply length_indices; [done|by apply in_range_nonneg]. }
    exists ds. split; [done|].
    unfold ascontiguousarray. rewrite bind_run. unfold deref. rewrite Hst.
    rewrite Hnot. rewrite bind_run. unfold lift. by rewrite Has.
  - intros (Hdims & Hsz & Hitems) Hnum _. unfold numeric in Hnum.
    simpl in Hnum.
    destruct (convert_numeric items Hnum) as (ds & Hc & Hl).
    exists ds. split; [unfold input_size; simpl; lia|].
    rewrite bind_run. unfold lift. by rewrite Hc.
Qed.

Lemma ascontiguousarray_fails h x :
  valid_input h x → non_numeric h x →
  ascontiguousarray x h = (Raised ConversionError, h).
Proof.
  destruct x as [a|dims items]; simpl.
  - unfold valid_view, non_numeric. simpl.
    destruct (h !! data a) as [st|] eqn:Hst; [|done].
    intros (Hlen & Hdims & Hsz & Hidx) Hex.
    destruct st as [l|l|l]; try by apply Exists_nil in Hex.
    destruct (astype_float64_valid (Obj l) _ _ (offset a) Hlen
                (in_range_nonneg _ Hdims) Hidx) as (os & Hr & Has).
    rewrite Hr in Hex. simpl in Hex.
    unfold ascontiguousarray. rewrite bind_run. unfold deref. rewrite Hst.
    simpl. rewrite bind_run. unfold lift. rewrite Hr.
    by rewrite (convert_non_numeric os Hex).
  - intros _ Hex. unfold non_numeric in Hex. simpl in Hex.
    rewrite bind_run. unfold lift.
    by rewrite (convert_non_numeric items Hex).
Qed.

(** The copy made of an integer array holds the casts of its items. *)
Lemma ascontiguousarray_int64 h a (l : list Z) (arr : ndarray) h' :
  h !! data a = Some (I64 l) →
  ascontiguousarray (Array a) h = (Ok arr, h') →
  ∃ zs, read l (indices (shape a) (strides a) (offset a)) = Some zs
        ∧ h' = <[fresh (dom h) := F64 (Double.of_Z <$> zs)]> h.
Proof.
  intros Hst. unfold ascontiguousarray. rewrite bind_run. unfold deref.
  rewrite Hst. cbn [is_float64 andb]. rewrite bind_run. unfold lift.
  cbn [astype_float64].
  destruct (read l _) as [zs|]; [|done].
  intros [= <- <-]. by exists zs.
Qed.

End Coercion.

(** ** The ctypes stage *)

Section NativeStage.
Import Py.
Implicit Types (h : heap) (a arr : ndarray) (x : array_like).

Lemma length_c_strides (dims : list Z) :
  length (c_strides dims) = length dims.
Proof. induction dims as [|d dims IH]; simpl; [done|]. by rewrite IH. Qed.

Lemma c_strides_cons (d : Z) (ds : list Z) :
  existsb (Z.eqb 0) ds = false →
  c_strides (d :: ds) = prod ds :: c_strides ds.
Proof.
  revert d. induction ds as [|d' ds IH]; intros d; [done|].
  cbn [existsb]. intros [Hd' Hds]%orb_false_iff.
  specialize (IH d' Hds). apply Z.eqb_neq in Hd'.
  change (c_strides (d :: d' :: ds))
    with (match c_strides (d' :: ds), d' :: ds with
          | t :: _, d'' :: _ => t * (if d'' =? 0 then 1 else d'')
          | _, _ => 1
          end :: c_strides (d' :: ds)).
  rewrite IH. f_equal.
  destruct (Z.eqb_spec d' 0); [lia|]. unfold prod. simpl. lia.
Qed.

Lemma row_major_c_strides (dims : list Z) :
  existsb (Z.eqb 0) dims = false → row_major dims (c_strides dims) = true.
Proof.
  induction dims as [|d dims IH]; [done|].
  cbn [existsb]. intros [_ Hds]%orb_false_iff.
  rewrite c_strides_cons by done. cbn [row_major].
  rewrite Z.eqb_refl, orb_true_r. simpl. auto.
Qed.

(** A new C-order array is C-contiguous. *)
Lemma c_contiguous_c_strides (l : loc) (off : Z) (dims : list Z) :
  c_contiguous (NdArray l off dims (c_strides dims)) = true.
Proof.
  unfold c_contiguous. cbn [shape strides].
  rewrite strides_match_row_major by apply length_c_strides.
  destruct (existsb (Z.eqb 0) dims) eqn:Hz; [done|].
  by rewrite row_major_c_strides.
Qed.

Lemma at_least_1d_data a : data (at_least_1d a) = data a.
Proof. unfold at_least_1d. by destruct (shape a). Qed.

Lemma at_least_1d_offset a : offset (at_least_1d a) = offset a.
Proof. unfold at_least_1d. by destruct (shape a). Qed.

Lemma at_least_1d_shape a :
  shape (at_least_1d a) = match shape a with [] => [1] | _ => shape a end.
Proof. unfold at_least_1d. by destruct (shape a) eqn:E. Qed.

Lemma at_least_1d_size a : size (at_least_1d a) = size a.
Proof.
  unfold size. rewrite at_least_1d_shape. destruct (shape a); reflexivity.
Qed.

Lemma at_least_1d_contiguous a :
  c_contiguous a = true → c_contiguous (at_least_1d a) = true.
Proof. unfold at_least_1d. by destruct (shape a). Qed.

Lemma at_least_1d_in_range a :
  Forall SizeT.in_range (shape a) →
  Forall SizeT.in_range (shape (at_least_1d a)).
Proof.
  rewrite at_least_1d_shape. destruct (shape a); [|done].
  intros _. repeat constructor; by vm_compute.
Qed.

(** [ndmin=1] turns zero dimensions into one and keeps any other
    number. *)
Lemma at_least_1d_ndim (w : wrapper) a :
  match w with
  | OneD => (length (shape a) ≤ 1)%nat
  | TwoD => length (shape a) = 2%nat
  end →
  ndim (at_least_1d a) = wrapper_ndim w.
Proof.
  unfold ndim. rewrite at_least_1d_shape.
  destruct w, (shape a) as [|? [|? ?]]; simpl; lia.
Qed.

Lemma from_param_ok h arr (l : list Double.double) (n : nat) :
  h !! data arr = Some (F64 l) → ndim arr = n → c_contiguous arr = true →
  from_param n arr h = (Ok (), h).
Proof.
  intros Hst Hn Hc. unfold from_param. rewrite bind_run. unfold deref.
  rewrite Hst. simpl. rewrite Hn, Nat.eqb_refl, Hc. done.
Qed.

Lemma from_param_wrong_ndim h arr (l : list Double.double) (n : nat) :
  h !! data arr = Some (F64 l) → ndim arr ≠ n →
  from_param n arr h = (Raised (ArgumentError WrongNdim), h).
Proof.
  intros Hst Hn. unfold from_param. rewrite bind_run. unfold deref.
  rewrite Hst. simpl. by rewrite (proj2 (Nat.eqb_neq _ _) Hn).
Qed.

Lemma c_size_t_in_range (n : Z) : SizeT.in_range n → c_size_t n = n.
Proof.
  intros [H0 Hn]. unfold c_size_t, SizeT.wrap. apply Z.mod_small.
  unfold SizeT.max in Hn. lia.
Qed.

(** The foreign call of a routine that fills [n] slots, on a view that
    has them. *)
Lemma foreign_fill (f : C.buffer → C.outcome C.buffer) h arr
    (l : list Double.double) (n : Z) :
  h !! data arr = Some (F64 l) →
  (∀ b, f b = C.fill_result b n) → 0 ≤ n →
  n = 0 ∨ (0 ≤ offset arr ∧ offset arr + n ≤ Z.of_nat (length l)) →
  foreign_call f arr h
  = (Ok (), <[data arr := F64 (overwrite l (offset arr) (C.fill_values n))]> h).
Proof.
  intros Hst Hf Hn Hext. unfold foreign_call. rewrite Hst, Hf.
  unfold C.fill_result, C.on_entry. cbn [C.cells C.stores].
  rewrite decide_True by (rewrite length_drop; lia).
  do 4 f_equal. unfold overwrite.
  by rewrite drop_drop, length_fill_values.
Qed.

Lemma native_stage_ok (w : wrapper) h arr (l : list Double.double) :
  h !! data arr = Some (F64 l) → c_contiguous arr = true →
  ndim arr = wrapper_ndim w →
  Forall SizeT.in_range (shape arr) → size arr ≤ SizeT.max →
  size arr = 0
  ∨ (0 ≤ offset arr ∧ offset arr + size arr ≤ Z.of_nat (length l)) →
  native_stage w arr h
  = (Ok (), <[data arr := F64 (overwrite l (offset arr)
                                 (C.fill_values (size arr)))]> h).
Proof.
  intros Hst Hc Hnd Hdims Hsz Hext.
  assert (Hnn : 0 ≤ size arr)
    by (apply prod_nonneg; by apply in_range_nonneg).
  destruct w; simpl in *.
  - unfold lib_fill_array. rewrite bind_run.
    rewrite (from_param_ok h arr l) by done.
    apply foreign_fill; [done| |done|done].
    intros b. rewrite c_size_t_in_range by done.
    by apply fill_array_spec.
  - unfold ndim in Hnd.
    destruct (shape arr) as [|rows [|cols [|? ?]]] eqn:Hsh; try done.
    apply Forall_cons in Hdims as [Hr Hcs].
    apply Forall_cons in Hcs as [Hcl _].
    assert (Hprod : size arr = rows * cols)
      by (unfold size, prod; rewrite Hsh; simpl; lia).
    unfold lib2d_fill_array_2d. rewrite bind_run.
    rewrite (from_param_ok h arr l) by (by unfold ndim; rewrite ?Hsh).
    rewrite Hprod in *.
    apply foreign_fill; [done| |done|done].
    intros b. rewrite !c_size_t_in_range by done.
    by apply fill_array_2d_spec.
Qed.

Lemma native_stage_wrong_ndim (w : wrapper) h arr (l : list Double.double) :
  h !! data arr = Some (F64 l) → ndim arr ≠ wrapper_ndim w →
  native_stage w arr h
  = (Raised match w with
            | OneD => ArgumentError WrongNdim
            | TwoD => UnpackError
            end, h).
Proof.
  intros Hst Hnd. destruct w; simpl in *.
  - unfold lib_fill_array. rewrite bind_run.
    by rewrite (from_param_wrong_ndim h arr l).
  - unfold ndim in Hnd.
    by destruct (shape arr) as [|rows [|cols [|? ?]]].
Qed.

Lemma new_array_data (l : loc) dims : data (new_array l dims) = l.
Proof. unfold new_array. by rewrite at_least_1d_data. Qed.

Lemma new_array_offset (l : loc) dims : offset (new_array l dims) = 0.
Proof. unfold new_array. by rewrite at_least_1d_offset. Qed.

Lemma new_array_size (l : loc) dims : size (new_array l dims) = prod dims.
Proof. unfold new_array. by rewrite at_least_1d_size. Qed.

Lemma new_array_contiguous (l : loc) dims :
  c_contiguous (new_array l dims) = true.
Proof.
  unfold new_array. apply at_least_1d_contiguous, c_contiguous_c_strides.
Qed.

Lemma overwrite_all (ds new : list Double.double) :
  length new = length ds → overwrite ds 0 new = new.
Proof.
  intros Hlen. unfold overwrite. simpl.
  rewrite drop_ge by lia. by rewrite app_nil_r.
Qed.

End NativeStage.

(** ** The wrappers, end to end *)

Section Wrappers.
Import Py.
Implicit Types (h : heap) (a arr : ndarray) (x : array_like).

Lemma valid_input_shape h x :
  valid_input h x →
  Forall SizeT.in_range (input_shape x) ∧ input_size x ≤ SizeT.max.
Proof.
  destruct x as [a|dims items]; simpl.
  - unfold valid_view. destruct (h !! data a); [|done].
    by intros (_ & ? & ? & _).
  - by intros (? & ? & _).
Qed.

Lemma accepts_ndim (w : wrapper) a :
  accepts w (Array a) → ndim (at_least_1d a) = wrapper_ndim w.
Proof. intros H. by apply at_least_1d_ndim; destruct w. Qed.

Lemma rejects_ndim (w : wrapper) (dims : list Z) (l : loc) (off : Z)
    (ts : list Z) :
  ¬ match w with
    | OneD => (length dims ≤ 1)%nat
    | TwoD => length dims = 2%nat
    end →
  ndim (at_least_1d (NdArray l off dims ts)) ≠ wrapper_ndim w.
Proof.
  unfold ndim. rewrite at_least_1d_shape. simpl.
  destruct w, dims as [|? [|? ?]]; simpl; lia.
Qed.

(** A wrapper on an array that is already contiguous [float64]: the
    array's own allocation receives the fill values. *)
Lemma run_in_place (w : wrapper) h x :
  valid_input h x → accepts w x → already_contiguous_float64 h x = true →
  ∃ a l, x = Array a ∧ h !! data a = Some (F64 l)
    ∧ c_contiguous a = true
    ∧ (size a = 0
       ∨ (0 ≤ offset a ∧ offset a + size a ≤ Z.of_nat (length l)))
    ∧ run w x h
      = (Ok (), <[data a := F64 (overwrite l (offset a)
                                   (C.fill_values (size a)))]> h).
Proof.
  intros Hv Hacc Hal.
  destruct (ascontiguousarray_in_place h x Hal) as (a & l & -> & Hst & Hc & Has).
  simpl in Hv. unfold valid_view in Hv. rewrite Hst in Hv.
  destruct Hv as (Hlen & Hdims & Hsz & Hidx).
  assert (Hext : size a = 0
            ∨ (0 ≤ offset a ∧ offset a + size a ≤ Z.of_nat (length l))).
  { destruct (contiguous_extent a (length l) Hlen Hdims Hidx Hc);
      [by left|right; lia]. }
  exists a, l. repeat split; [done..|].
  rewrite run_stages, bind_run, Has.
  rewrite (native_stage_ok w h (at_least_1d a) l).
  - by rewrite at_least_1d_data, at_least_1d_offset, at_least_1d_size.
  - by rewrite at_least_1d_data.
  - by apply at_least_1d_contiguous.
  - by apply accepts_ndim.
  - by apply at_least_1d_in_range.
  - by rewrite at_least_1d_size.
  - by rewrite at_least_1d_offset, at_least_1d_size.
Qed.

(** A wrapper on anything else: the fill values land in a new
    allocation. *)
Lemma run_copy (w : wrapper) h x :
  valid_input h x → numeric h x → accepts w x →
  already_contiguous_float64 h x = false →
  ∃ ds, ascontiguousarray x h
        = (Ok (new_array (fresh (dom h)) (input_shape x)),
           <[fresh (dom h) := F64 ds]> h)
    ∧ run w x h
      = (Ok (), <[fresh (dom h) := F64 (C.fill_values (input_size x))]> h).
Proof.
  intros Hv Hnum Hacc Hnot.
  destruct (ascontiguousarray_copy h x Hv Hnum Hnot) as (ds & Hds & Has).
  destruct (valid_input_shape h x Hv) as [Hdims Hsz].
  exists ds. split; [done|].
  rewrite run_stages, bind_run, Has.
  set (l := fresh (dom h)).
  assert (Hnn : 0 ≤ input_size x)
    by (apply prod_nonneg; by apply in_range_nonneg).
  rewrite (native_stage_ok w _ _ ds).
  - rewrite new_array_data, new_array_offset, new_array_size.
    rewrite insert_insert_eq, overwrite_all; [done|].
    rewrite length_fill_values. by rewrite Hds.
  - by rewrite new_array_data, lookup_insert_eq.
  - apply new_array_contiguous.
  - unfold new_array. apply at_least_1d_ndim. simpl.
    by destruct w, x.
  - unfold new_array. by apply at_least_1d_in_range.
  - by rewrite new_array_size.
  - rewrite new_array_offset, new_array_size. right.
    unfold input_size in *. lia.
Qed.

(** A wrapper on a numeric input of a dimensionality it does not take:
    the error comes after the coercion, so a copy may have been made. *)
Lemma run_rejected (w : wrapper) h x :
  valid_input h x → numeric h x → ¬ accepts w x →
  ∃ h', run w x h
        = (Raised match w with
                  | OneD => ArgumentError WrongNdim
                  | TwoD => UnpackError
                  end, h')
    ∧ if already_contiguous_float64 h x then h' = h
      else ∃ ds, h' = <[fresh (dom h) := F64 ds]> h.
Proof.
  intros Hv Hnum Hrej.
  destruct (already_contiguous_float64 h x) eqn:Hal.
  - destruct (ascontiguousarray_in_place h x Hal)
      as (a & l & -> & Hst & Hc & Has).
    exists h. split; [|done].
    rewrite run_stages, bind_run, Has.
    rewrite (native_stage_wrong_ndim w h _ l); [done| |].
    + by rewrite at_least_1d_data.
    + destruct a as [l' off dims ts]. apply rejects_ndim.
      by destruct w.
  - destruct (ascontiguousarray_copy h x Hv Hnum Hal) as (ds & Hds & Has).
    eexists. split; [|by exists ds].
    rewrite run_stages, bind_run, Has.
    rewrite (native_stage_wrong_ndim w _ _ ds); [done| |].
    + by rewrite new_array_data, lookup_insert_eq.
    + unfold new_array. apply rejects_ndim. by destruct w, x.
Qed.

Lemma run_accepted (w : wrapper) h x :
  valid_input h x → numeric h x → accepts w x →
  fst (run w x h) = Ok ().
Proof.
  intros Hv Hnum Hacc.
  destruct (already_contiguous_float64 h x) eqn:Hal.
  - by destruct (run_in_place w h x Hv Hacc Hal)
      as (a & l & _ & _ & _ & _ & ->).
  - by destruct (run_copy w h x Hv Hnum Hacc Hal) as (ds & _ & ->).
Qed.

Lemma numeric_or_not h x : numeric h x ∨ non_numeric h x.
Proof.
  unfold numeric, non_numeric.
  induction (objects h x) as [|o os [IH|IH]].
  - left. constructor.
  - destruct (float_of o) as [d|] eqn:Ho.
    + left. constructor; [by rewrite Ho|done].
    + right. by left.
  - right. by right.
Qed.

Lemma accepts_dec (w : wrapper) x : accepts w x ∨ ¬ accepts w x.
Proof. destruct w; simpl; lia. Qed.

Lemma run_non_numeric (w : wrapper) h x :
  valid_input h x → non_numeric h x →
  run w x h = (Raised ConversionError, h).
Proof.
  intros Hv Hnn.
  by rewrite run_stages, bind_run, (ascontiguousarray_fails h x Hv Hnn).
Qed.

Lemma fresh_unused h : h !! fresh (dom h) = None.
Proof. apply not_elem_of_dom, is_fresh. Qed.

Lemma insert_fresh_frame h (st : storage) (l' : loc) :
  is_Some (h !! l') → <[fresh (dom h) := st]> h !! l' = h !! l'.
Proof.
  intros [st' Hl']. rewrite lookup_insert_ne; [done|].
  intros <-. by rewrite fresh_unused in Hl'.
Qed.

(** Whatever the outcome, a wrapper allocates nothing on an input that
    is already contiguous [float64], and touches no existing allocation
    on any other input. *)
Lemma run_frame (w : wrapper) h x :
  valid_input h x →
  if already_contiguous_float64 h x
  then dom (snd (run w x h)) = dom h
  else ∀ l', is_Some (h !! l') → snd (run w x h) !! l' = h !! l'.
Proof.
  intros Hv.
  destruct (numeric_or_not h x) as [Hnum|Hnn].
  - destruct (accepts_dec w x) as [Hacc|Hrej].
    + destruct (already_contiguous_float64 h x) eqn:Hal.
      * destruct (run_in_place w h x Hv Hacc Hal)
          as (a & l & -> & Hst & _ & _ & ->).
        simpl. apply dom_insert_lookup_L. by rewrite Hst.
      * destruct (run_copy w h x Hv Hnum Hacc Hal) as (ds & _ & ->).
        simpl. intros l'. apply insert_fresh_frame.
    + destruct (run_rejected w h x Hv Hnum Hrej) as (h' & -> & Hh').
      destruct (already_contiguous_float64 h x); simpl.
      * by rewrite Hh'.
      * destruct Hh' as (ds & ->). intros l'. apply insert_fresh_frame.
  - rewrite (run_non_numeric w h x Hv Hnn). simpl.
    by destruct (already_contiguous_float64 h x).
Qed.

Lemma overwrite_nothing (l : list Double.double) (off : Z) :
  overwrite l off [] = l.
Proof.
  unfold overwrite. simpl. rewrite Nat.add_0_r. apply take_drop.
Qed.

Lemma item_overwrite (l new : list Double.double) (off k : Z) :
  0 ≤ off → off + Z.of_nat (length new) ≤ Z.of_nat (length l) →
  0 ≤ k < Z.of_nat (length new) →
  item (overwrite l off new) (off + k) = new !! Z.to_nat k.
Proof.
  intros Hoff Hfit Hk. unfold item, overwrite.
  rewrite (proj2 (Z.leb_le 0 (off + k))) by lia.
  rewrite lookup_app_r by (rewrite length_take; lia).
  rewrite length_take.
  rewrite lookup_app_l by lia. f_equal. lia.
Qed.

End Wrappers.

(** ** Reading an array back *)

Section Positions.
Import Py.

Lemma position_1d (a : ndarray) (n i : Z) :
  shape a = [n] → length (strides a) = length (shape a) →
  c_contiguous a = true → 0 ≤ i < n →
  position a [i] = offset a + i.
Proof.
  intros Hsh Hlen Hc Hi. unfold position.
  destruct (c_contiguous_zero_or_row_major a Hlen Hc) as [Hz|[_ Hrm]];
    rewrite Hsh in *.
  - cbn [existsb] in Hz. rewrite orb_false_r in Hz.
    apply Z.eqb_eq in Hz. lia.
  - destruct (strides a) as [|t [|? ?]]; try done.
    cbn [row_major] in Hrm. rewrite andb_true_r in Hrm.
    apply orb_true_iff in Hrm as [H1|H1]; apply Z.eqb_eq in H1.
    + assert (i = 0) as -> by lia. cbn [zip_with foldr]. lia.
    + rewrite H1. unfold prod. cbn [zip_with foldr]. lia.
Qed.

Lemma position_2d (a : ndarray) (rows cols i j : Z) :
  shape a = [rows; cols] → length (strides a) = length (shape a) →
  c_contiguous a = true → 0 ≤ i < rows → 0 ≤ j < cols →
  position a [i; j] = offset a + (i * cols + j).
Proof.
  intros Hsh Hlen Hc Hi Hj. unfold position.
  destruct (c_contiguous_zero_or_row_major a Hlen Hc) as [Hz|[_ Hrm]];
    rewrite Hsh in *.
  - cbn [existsb] in Hz. rewrite orb_false_r in Hz.
    apply orb_true_iff in Hz as [Hz|Hz]; apply Z.eqb_eq in Hz; lia.
  - destruct (strides a) as [|s [|t [|? ?]]]; try done.
    cbn [row_major] in Hrm. rewrite andb_true_r in Hrm.
    apply andb_true_iff in Hrm as [Hs Ht].
    assert (i * s = i * cols) as Hs'.
    { apply orb_true_iff in Hs as [H1|H1]; apply Z.eqb_eq in H1.
      - assert (i = 0) as -> by lia. lia.
      - rewrite H1. unfold prod. cbn [foldr]. lia. }
    assert (j * t = j) as Ht'.
    { apply orb_true_iff in Ht as [H1|H1]; apply Z.eqb_eq in H1.
      - assert (j = 0) as -> by lia. lia.
      - rewrite H1. unfold prod. cbn [foldr]. lia. }
    cbn [zip_with foldr]. lia.
Qed.

(** After an in-place fill the array reads [(double)k] at the [k]-th
    position of its extent. *)
Lemma getitem_filled (h : heap) (a : ndarray) (l : list Double.double)
    (idx : list Z) (k : Z) :
  size a = 0
  ∨ (0 ≤ offset a ∧ offset a + size a ≤ Z.of_nat (length l)) →
  position a idx = offset a + k → 0 ≤ k < size a →
  getitem (<[data a := F64 (overwrite l (offset a)
                              (C.fill_values (size a)))]> h) a idx
  = Some (Double.of_Z k).
Proof.
  intros [Hz|[Hoff Hfit]] Hpos Hk; [lia|].
  unfold getitem. rewrite lookup_insert_eq, Hpos.
  rewrite item_overwrite by (rewrite ?length_fill_values; lia).
  by apply lookup_fill_values.
Qed.

End Positions.

(** ** The properties of the specification, C1 to C10 *)

(** C1.  After the 1-D fill of a buffer of [n] doubles, slot [i] holds
    [(double)i] for every [i] in [[0, n)]: for the native routine on the
    buffer it is given, and for the wrapper on a contiguous [float64]
    vector, read back through the caller's own array. *)
Theorem fill_array_slots :
  (∀ (arr : C.buffer) (n : Z),
     Z.of_nat (length (C.cells arr)) = n → n ≤ SizeT.max →
     ∃ arr', C.fill_array arr n = C.Returned arr'
       ∧ length (C.cells arr') = length (C.cells arr)
       ∧ ∀ i, 0 ≤ i < n → C.cells arr' !! Z.to_nat i = Some (of_Z i))
  ∧ (∀ (h : gmap Py.loc Py.storage) (a : Py.ndarray) (n : Z),
       Py.valid_view h a →
       Py.already_contiguous_float64 h (Py.Array a) = true →
       Py.shape a = [n] →
       ∃ h', Py.fill_array (Py.Array a) h = (Py.Ok (), h')
         ∧ ∀ i, 0 ≤ i < n → Py.getitem h' a [i] = Some (of_Z i)).
Proof.
  split.
  - intros arr n Hlen Hmax.
    rewrite fill_array_spec by (split; lia).
    rewrite fill_result_full by done.
    eexists. split; [done|]. cbn [C.cells]. split.
    + rewrite length_fill_values. lia.
    + intros i Hi. by apply lookup_fill_values.
  - intros h a n Hv Hal Hsh.
    destruct (run_in_place Py.OneD h (Py.Array a) Hv) as
      (a' & l & [= <-] & Hst & Hc & Hext & Hrun); [|done|].
    { simpl. unfold Py.input_ndim. simpl. rewrite Hsh. simpl. lia. }
    eexists. split; [exact Hrun|]. intros i Hi.
    unfold Py.valid_view in Hv. rewrite Hst in Hv.
    destruct Hv as (Hlen & _).
    assert (Hsz : Py.size a = n)
      by (unfold Py.size, Py.prod; rewrite Hsh; simpl; lia).
    apply getitem_filled; [done| |lia].
    by apply (position_1d a n).
Qed.

Lemma fill_array_slots_witness :
  let h : gmap Py.loc Py.storage :=
    {[1%positive := Py.F64 [zero; zero; zero]]} in
  let a := Py.NdArray 1%positive 0 [3] [1] in
  (∃ arr', C.fill_array (C.on_entry [zero; zero; zero]) 3 = C.Returned arr'
     ∧ length (C.cells arr') = 3%nat
     ∧ ∀ i, 0 ≤ i < 3 → C.cells arr' !! Z.to_nat i = Some (of_Z i))
  ∧ (∃ h', Py.fill_array (Py.Array a) h = (Py.Ok (), h')
       ∧ ∀ i, 0 ≤ i < 3 → Py.getitem h' a [i] = Some (of_Z i)).
Proof.
  intros h a.
  assert (Hst : h !! Py.data a = Some (Py.F64 [zero; zero; zero]))
    by apply lookup_singleton_eq.
  split.
  - apply (proj1 fill_array_slots (C.on_entry [zero; zero; zero]) 3).
    + reflexivity.
    + vm_compute. discriminate.
  - apply (proj2 fill_array_slots h a 3).
    + valid_view_of Hst.
    + unfold Py.already_contiguous_float64. rewrite Hst. reflexivity.
    + reflexivity.
Defined.

(** C2.  After the 2-D fill of a [rows] by [cols] row-major buffer, the
    element at row [i], column [j] holds [(double)(i*cols+j)]: for the
    native routine, and for the wrapper on a contiguous [float64]
    matrix. *)
Theorem fill_array_2d_slots :
  (∀ (arr : C.buffer) (rows cols : Z),
     SizeT.in_range rows → SizeT.in_range cols →
     Z.of_nat (length (C.cells arr)) = rows * cols →
     rows * cols ≤ SizeT.max →
     ∃ arr', C.fill_array_2d arr rows cols = C.Returned arr'
       ∧ length (C.cells arr') = length (C.cells arr)
       ∧ ∀ i j, 0 ≤ i < rows → 0 ≤ j < cols →
           C.cells arr' !! Z.to_nat (i * cols + j)
           = Some (of_Z (i * cols + j)))
  ∧ (∀ (h : gmap Py.loc Py.storage) (a : Py.ndarray) (rows cols : Z),
       Py.valid_view h a →
       Py.already_contiguous_float64 h (Py.Array a) = true →
       Py.shape a = [rows; cols] →
       ∃ h', Py.fill_array_2d (Py.Array a) h = (Py.Ok (), h')
         ∧ ∀ i j, 0 ≤ i < rows → 0 ≤ j < cols →
             Py.getitem h' a [i; j] = Some (of_Z (i * cols + j))).
Proof.
  split.
  - intros arr rows cols Hr Hc Hlen Hmax.
    rewrite fill_array_2d_spec by done.
    rewrite fill_result_full by done.
    eexists. split; [done|]. cbn [C.cells]. split.
    + rewrite length_fill_values. lia.
    + intros i j Hi Hj. apply lookup_fill_values. nia.
  - intros h a rows cols Hv Hal Hsh.
    destruct (run_in_place Py.TwoD h (Py.Array a) Hv) as
      (a' & l & [= <-] & Hst & Hc & Hext & Hrun); [|done|].
    { simpl. unfold Py.input_ndim. simpl. by rewrite Hsh. }
    eexists. split; [exact Hrun|]. intros i j Hi Hj.
    unfold Py.valid_view in Hv. rewrite Hst in Hv.
    destruct Hv as (Hlen & _).
    assert (Hsz : Py.size a = rows * cols)
      by (unfold Py.size, Py.prod; rewrite Hsh; simpl; lia).
    apply getitem_filled; [done| |nia].
    by apply (position_2d a rows cols).
Qed.

Lemma fill_array_2d_slots_witness :
  let cells := [zero; zero; zero; zero; zero; zero] in
  let h : gmap Py.loc Py.storage := {[1%positive := Py.F64 cells]} in
  let a := Py.NdArray 1%positive 0 [2; 3] [3; 1] in
  (∃ arr', C.fill_array_2d (C.on_entry cells) 2 3 = C.Returned arr'
     ∧ length (C.cells arr') = 6%nat
     ∧ ∀ i j, 0 ≤ i < 2 → 0 ≤ j < 3 →
         C.cells arr' !! Z.to_nat (i * 3 + j) = Some (of_Z (i * 3 + j)))
  ∧ (∃ h', Py.fill_array_2d (Py.Array a) h = (Py.Ok (), h')
       ∧ ∀ i j, 0 ≤ i < 2 → 0 ≤ j < 3 →
           Py.getitem h' a [i; j] = Some (of_Z (i * 3 + j))).
Proof.
  intros cells h a.
  assert (Hst : h !! Py.data a = Some (Py.F64 cells))
    by apply lookup_singleton_eq.
  split.
  - apply (proj1 fill_array_2d_slots (C.on_entry cells) 2 3).
    + in_range.
    + in_range.
    + reflexivity.
    + vm_compute. discriminate.
  - apply (proj2 fill_array_2d_slots h a 2 3).
    + valid_view_of Hst.
    + unfold Py.already_contiguous_float64. rewrite Hst. reflexivity.
    + reflexivity.
Defined.

(** C3.  The 2-D routine on [rows] and [cols] is the 1-D routine on
    [rows*cols]: same cells, same stores in the same order, same
    outcome. *)
Theorem fill_array_2d_is_fill_array (arr : C.buffer) (rows cols : Z) :
  SizeT.in_range rows → SizeT.in_range cols → rows * cols ≤ SizeT.max →
  C.fill_array_2d arr rows cols = C.fill_array arr (rows * cols).
Proof.
  intros Hr Hc Hmax.
  rewrite fill_array_2d_spec by done.
  rewrite fill_array_spec; [done|]. destruct Hr, Hc. split; [nia|done].
Qed.

Lemma fill_array_2d_is_fill_array_witness :
  let arr := C.on_entry [zero; zero; zero; zero; zero; zero] in
  C.fill_array_2d arr 2 3 = C.fill_array arr (2 * 3).
Proof.
  intros arr. apply (fill_array_2d_is_fill_array arr 2 3).
  - in_range.
  - in_range.
  - vm_compute. discriminate.
Defined.

(** C4.  If the input is already a contiguous [float64] array the wrapper
    allocates nothing and, once the native call is reached, the fill
    values are in the caller's own storage; otherwise every allocation
    that existed before the call is left as it was and, once the native
    call is reached, the fill values are in a new allocation. *)
Theorem wrapper_in_place_or_copy
    (w : Py.wrapper) (h : gmap Py.loc Py.storage) (x : Py.array_like) :
  Py.valid_input h x →
  (if Py.already_contiguous_float64 h x
   then dom (snd (Py.run w x h)) = dom h
   else ∀ l', is_Some (h !! l') → snd (Py.run w x h) !! l' = h !! l')
  ∧ (Py.numeric h x → Py.accepts w x →
     ∃ h', Py.run w x h = (Py.Ok (), h')
       ∧ if Py.already_contiguous_float64 h x then
           ∃ a l, x = Py.Array a ∧ h !! Py.data a = Some (Py.F64 l)
             ∧ h' !! Py.data a
               = Some (Py.F64 (Py.overwrite l (Py.offset a)
                                 (C.fill_values (Py.size a))))
             ∧ ∀ l', l' ≠ Py.data a → h' !! l' = h !! l'
         else
           ∃ l, h !! l = None
             ∧ h' !! l = Some (Py.F64 (C.fill_values (Py.input_size x)))
             ∧ dom h' = {[l]} ∪ dom h).
Proof.
  intros Hv. split; [by apply run_frame|].
  intros Hnum Hacc.
  destruct (Py.already_contiguous_float64 h x) eqn:Hal.
  - destruct (run_in_place w h x Hv Hacc Hal)
      as (a & l & -> & Hst & _ & _ & Hrun).
    eexists. split; [exact Hrun|].
    exists a, l. repeat split; [done| |].
    + by rewrite lookup_insert_eq.
    + intros l' Hne. by rewrite lookup_insert_ne.
  - destruct (run_copy w h x Hv Hnum Hacc Hal) as (ds & _ & Hrun).
    eexists. split; [exact Hrun|].
    exists (fresh (dom h)). repeat split.
    + apply fresh_unused.
    + by rewrite lookup_insert_eq.
    + by rewrite dom_insert_L.
Qed.

(** The reversed view [v[::-1]] of a [float64] vector is not contiguous:
    the 1-D wrapper fills a copy and [v] keeps its zeros. *)
Lemma wrapper_in_place_or_copy_witness :
  let h : gmap Py.loc Py.storage :=
    {[1%positive := Py.F64 [zero; zero; zero]]} in
  let x := Py.Array (Py.NdArray 1%positive 2 [3] [-1]) in
  Py.already_contiguous_float64 h x = false
  ∧ (∀ l', is_Some (h !! l') → snd (Py.run Py.OneD x h) !! l' = h !! l')
  ∧ ∃ h' l, Py.run Py.OneD x h = (Py.Ok (), h')
      ∧ h !! l = None
      ∧ h' !! l = Some (Py.F64 (C.fill_values 3)).
Proof.
  intros h x.
  assert (Hst : h !! Py.data (Py.NdArray 1%positive 2 [3] [-1])
                = Some (Py.F64 [zero; zero; zero]))
    by apply lookup_singleton_eq.
  assert (Hal : Py.already_contiguous_float64 h x = false).
  { unfold Py.already_contiguous_float64, x. rewrite Hst. reflexivity. }
  assert (Hv : Py.valid_input h x).
  { unfold Py.valid_input, x. valid_view_of Hst. }
  pose proof (wrapper_in_place_or_copy Py.OneD h x Hv) as [Hframe Hrun].
  rewrite Hal in Hframe, Hrun.
  split; [exact Hal|]. split; [exact Hframe|].
  destruct Hrun as (h' & Hh' & l & Hl & Hl' & _).
  - unfold Py.numeric, Py.objects, x. rewrite Hst. constructor.
  - unfold Py.accepts, Py.input_ndim, x. simpl. lia.
  - exists h', l. auto.
Defined.

(** C5 does not hold as the specification states it: a scalar passed to
    the 1-D wrapper has no dimension, yet [ndmin=1] promotes it to one
    item and the call returns normally; and a vector of non-numeric
    objects passed to the 2-D wrapper fails in the coercion, before its
    shape is looked at. *)
Lemma scalar_input_not_rejected :
  let scalar := Py.Sequence [] [Py.PyFloat (of_Z 5)] in
  let words := Py.Sequence [2] [Py.PyOther; Py.PyOther] in
  (Py.valid_input ∅ scalar
   ∧ Py.numeric ∅ scalar
   ∧ Py.input_ndim scalar ≠ 1%nat
   ∧ fst (Py.fill_array scalar ∅) = Py.Ok ()
   ∧ ¬ Py.fails_with Py.ShapeMismatchError (fst (Py.fill_array scalar ∅)))
  ∧ (Py.valid_input ∅ words
     ∧ Py.input_ndim words ≠ 2%nat
     ∧ fst (Py.fill_array_2d words ∅) = Py.Raised Py.ConversionError
     ∧ ¬ Py.fails_with Py.ShapeMismatchError
           (fst (Py.fill_array_2d words ∅))).
Proof.
  assert (Hrun : fst (Py.fill_array (Py.Sequence [] [Py.PyFloat (of_Z 5)]) ∅)
                 = Py.Ok ()) by by vm_compute.
  assert (Hrun2 : fst (Py.fill_array_2d
                         (Py.Sequence [2] [Py.PyOther; Py.PyOther]) ∅)
                  = Py.Raised Py.ConversionError) by by vm_compute.
  cbn zeta. split; [split; [|split; [|split; [|split]]]|split; [|split; [|split]]].
  - split; [constructor|]. split; by vm_compute.
  - repeat constructor. by eexists.
  - by vm_compute.
  - exact Hrun.
  - intros (e & He & _). rewrite Hrun in He. discriminate.
  - split; [repeat constructor; by vm_compute|]. split; by vm_compute.
  - by vm_compute.
  - exact Hrun2.
  - intros (e & He & Hk). rewrite Hrun2 in He. by injection He as <-.
Qed.

(** C5, restated to what the wrappers do.  An input holding an object
    [float()] rejects makes either wrapper fail in the coercion
    (TypeConversionError), leaving the store as it was.  A numeric input
    fails with ShapeMismatchError in the 2-D wrapper when it has other
    than two dimensions, and in the 1-D wrapper when it has two or more;
    the 1-D wrapper returns normally on a numeric input of one dimension
    or none. *)
Theorem wrapper_errors (h : gmap Py.loc Py.storage) (x : Py.array_like) :
  Py.valid_input h x →
  (Py.non_numeric h x →
     ∀ w, Py.run w x h = (Py.Raised Py.ConversionError, h)
          ∧ Py.fails_with Py.TypeConversionError (fst (Py.run w x h)))
  ∧ (Py.numeric h x → Py.input_ndim x ≠ 2%nat →
       Py.fails_with Py.ShapeMismatchError (fst (Py.fill_array_2d x h)))
  ∧ (Py.numeric h x → (2 ≤ Py.input_ndim x)%nat →
       Py.fails_with Py.ShapeMismatchError (fst (Py.fill_array x h)))
  ∧ (Py.numeric h x → (Py.input_ndim x ≤ 1)%nat →
       fst (Py.fill_array x h) = Py.Ok ()).
Proof.
  intros Hv. split; [|split; [|split]].
  - intros Hnn w. rewrite run_non_numeric by done.
    split; [done|]. by eexists.
  - intros Hnum Hnd.
    destruct (run_rejected Py.TwoD h x Hv Hnum) as (h' & Hrun & _); [done|].
    simpl in Hrun. rewrite Hrun. by eexists.
  - intros Hnum Hnd.
    destruct (run_rejected Py.OneD h x Hv Hnum) as (h' & Hrun & _);
      [simpl; lia|].
    simpl in Hrun. rewrite Hrun. by eexists.
  - intros Hnum Hnd. by apply (run_accepted Py.OneD).
Qed.

Lemma wrapper_errors_witness :
  let words := Py.Sequence [2] [Py.PyOther; Py.PyFloat zero] in
  let cube := Py.Sequence [1; 1; 1] [Py.PyInt 4] in
  let pair := Py.Sequence [2] [Py.PyInt 4; Py.PyFloat zero] in
  Py.fails_with Py.TypeConversionError (fst (Py.fill_array words ∅))
  ∧ Py.fails_with Py.ShapeMismatchError (fst (Py.fill_array_2d cube ∅))
  ∧ Py.fails_with Py.ShapeMismatchError (fst (Py.fill_array cube ∅))
  ∧ fst (Py.fill_array pair ∅) = Py.Ok ().
Proof.
  intros words cube pair.
  assert (Hw : Py.valid_input ∅ words).
  { split; [repeat constructor; vm_compute; discriminate|].
    split; [vm_compute; discriminate|reflexivity]. }
  assert (Hc : Py.valid_input ∅ cube).
  { split; [repeat constructor; vm_compute; discriminate|].
    split; [vm_compute; discriminate|reflexivity]. }
  assert (Hp : Py.valid_input ∅ pair).
  { split; [repeat constructor; vm_compute; discriminate|].
    split; [vm_compute; discriminate|reflexivity]. }
  assert (Hnum : Py.numeric ∅ cube).
  { repeat constructor. vm_compute. by eexists. }
  assert (Hnum' : Py.numeric ∅ pair).
  { repeat constructor; vm_compute; by eexists. }
  split; [|split; [|split]].
  - apply (proj1 (wrapper_errors ∅ words Hw) ltac:(by left) Py.OneD).
  - apply (proj1 (proj2 (wrapper_errors ∅ cube Hc)) Hnum).
    vm_compute. discriminate.
  - apply (proj1 (proj2 (proj2 (wrapper_errors ∅ cube Hc))) Hnum).
    vm_compute. lia.
  - apply (proj2 (proj2 (proj2 (wrapper_errors ∅ pair Hp))) Hnum').
    vm_compute. lia.
Defined.

(** C6.  Filling a buffer a second time leaves its contents as the first
    fill left them, for the 1-D and for the 2-D routine. *)
Theorem fill_idempotent (arr : C.buffer) :
  (∀ n, SizeT.in_range n → n ≤ Z.of_nat (length (C.cells arr)) →
     ∃ once twice,
       C.fill_array arr n = C.Returned once
       ∧ C.fill_array once n = C.Returned twice
       ∧ C.cells twice = C.cells once)
  ∧ (∀ rows cols, SizeT.in_range rows → SizeT.in_range cols →
       rows * cols ≤ SizeT.max →
       rows * cols ≤ Z.of_nat (length (C.cells arr)) →
       ∃ once twice,
         C.fill_array_2d arr rows cols = C.Returned once
         ∧ C.fill_array_2d once rows cols = C.Returned twice
         ∧ C.cells twice = C.cells once).
Proof.
  split.
  - intros n Hn Hlen.
    destruct (fill_result_twice arr n) as (once & twice & H1 & H2 & Heq);
      [destruct Hn; lia|].
    exists once, twice. by rewrite !fill_array_spec.
  - intros rows cols Hr Hc Hmax Hlen.
    destruct (fill_result_twice arr (rows * cols))
      as (once & twice & H1 & H2 & Heq); [destruct Hr, Hc; nia|].
    exists once, twice. by rewrite !fill_array_2d_spec.
Qed.

Lemma fill_idempotent_witness :
  let arr := C.on_entry [of_Z 7; of_Z 8; of_Z 9; of_Z 1; of_Z 2; of_Z 3] in
  (∃ once twice,
     C.fill_array arr 6 = C.Returned once
     ∧ C.fill_array once 6 = C.Returned twice
     ∧ C.cells twice = C.cells once)
  ∧ (∃ once twice,
       C.fill_array_2d arr 2 3 = C.Returned once
       ∧ C.fill_array_2d once 2 3 = C.Returned twice
       ∧ C.cells twice = C.cells once).
Proof.
  intros arr. split.
  - apply (proj1 (fill_idempotent arr) 6).
    + in_range.
    + vm_compute. discriminate.
  - apply (proj2 (fill_idempotent arr) 2 3).
    + in_range.
    + in_range.
    + vm_compute. discriminate.
    + vm_compute. discriminate.
Defined.

(** C7.  With no slot to fill (length 0, or no rows, or no columns) the
    routines return the buffer they were given: no cell changed, nothing
    added to the log of stores, no undefined behaviour.  Through a
    wrapper, an empty input raises nothing: an array filled in place
    leaves the store as it was, any other input adds an empty
    allocation. *)
Theorem fill_empty_noop (arr : C.buffer) :
  C.fill_array arr 0 = C.Returned arr
  ∧ (∀ rows cols, SizeT.in_range rows → SizeT.in_range cols →
       rows = 0 ∨ cols = 0 →
       C.fill_array_2d arr rows cols = C.Returned arr)
  ∧ (∀ (w : Py.wrapper) (h : gmap Py.loc Py.storage) (x : Py.array_like),
       Py.valid_input h x → Py.numeric h x → Py.accepts w x →
       Py.input_size x = 0 →
       if Py.already_contiguous_float64 h x
       then Py.run w x h = (Py.Ok (), h)
       else ∃ l, h !! l = None
              ∧ Py.run w x h = (Py.Ok (), <[l := Py.F64 []]> h)).
Proof.
  split; [done|]. split.
  - intros rows cols Hr Hc Hz.
    assert (rows * cols = 0) as Hp by nia.
    rewrite fill_array_2d_spec; [|done|done|rewrite Hp; by vm_compute].
    rewrite Hp. apply fill_result_zero.
  - intros w h x Hv Hnum Hacc Hsz.
    destruct (Py.already_contiguous_float64 h x) eqn:Hal.
    + destruct (run_in_place w h x Hv Hacc Hal)
        as (a & l & -> & Hst & _ & _ & Hrun).
      rewrite Hrun. unfold Py.input_size in Hsz. simpl in Hsz.
      unfold Py.size. rewrite Hsz.
      change (C.fill_values 0) with (@nil double).
      by rewrite overwrite_nothing, insert_id.
    + destruct (run_copy w h x Hv Hnum Hacc Hal) as (ds & _ & Hrun).
      exists (fresh (dom h)). split; [apply fresh_unused|].
      by rewrite Hrun, Hsz.
Qed.

Lemma fill_empty_noop_witness :
  let arr := C.on_entry [of_Z 7; of_Z 8] in
  let h : gmap Py.loc Py.storage := {[1%positive := Py.F64 [of_Z 7]]} in
  let a := Py.NdArray 1%positive 1 [0] [1] in
  C.fill_array arr 0 = C.Returned arr
  ∧ C.fill_array_2d arr 0 5 = C.Returned arr
  ∧ C.fill_array_2d arr 5 0 = C.Returned arr
  ∧ Py.run Py.OneD (Py.Array a) h = (Py.Ok (), h).
Proof.
  intros arr h a.
  assert (Hst : h !! Py.data a = Some (Py.F64 [of_Z 7]))
    by apply lookup_singleton_eq.
  split; [apply (proj1 (fill_empty_noop arr))|split; [|split]].
  - apply (proj1 (proj2 (fill_empty_noop arr)) 0 5); [in_range|in_range|].
    left. reflexivity.
  - apply (proj1 (proj2 (fill_empty_noop arr)) 5 0); [in_range|in_range|].
    right. reflexivity.
  - pose proof (proj2 (proj2 (fill_empty_noop arr)) Py.OneD h (Py.Array a))
      as Hrun.
    unfold Py.already_contiguous_float64 in Hrun. rewrite Hst in Hrun.
    apply Hrun.
    + unfold Py.valid_input. valid_view_of Hst.
    + unfold Py.numeric, Py.objects. rewrite Hst. constructor.
    + unfold Py.accepts, Py.input_ndim. simpl. lia.
    + reflexivity.
Defined.

(** An [int64] vector long enough for the loop to pass index [2^53]:
    the wrapper copies it, fills the copy, and slot [2^53 + 1] of the copy
    receives the cast of its index. *)
Lemma int64_vector_past_2_53 (n : Z) (ints : list Z) :
  Z.of_nat (length ints) = n → 2 ^ 53 + 2 ≤ n ≤ SizeT.max →
  let h : gmap Py.loc Py.storage := {[1%positive := Py.I64 ints]} in
  let a := Py.NdArray 1%positive 0 [n] [1] in
  ∃ l, h !! l = None
    ∧ Py.fill_array (Py.Array a) h
      = (Py.Ok (), <[l := Py.F64 (C.fill_values n)]> h)
    ∧ C.fill_values n !! Z.to_nat (2 ^ 53 + 1) = Some (of_Z (2 ^ 53 + 1)).
Proof.
  intros Hlen Hn h a.
  assert (Hst : h !! Py.data a = Some (Py.I64 ints))
    by apply lookup_singleton_eq.
  assert (Hsz : Py.size a = n) by (unfold Py.size, Py.prod; simpl; lia).
  assert (Hv : Py.valid_view h a).
  { unfold Py.valid_view. rewrite Hst. split; [done|].
    split; [repeat constructor; lia|]. split; [lia|].
    rewrite indices_row_major.
    - apply Forall_seqZ. intros k Hk. simpl in *. lia.
    - done.
    - repeat constructor. simpl. lia.
    - simpl. by rewrite orb_true_r.
  }
  destruct (run_copy Py.OneD h (Py.Array a)) as (ds & _ & Hrun).
  - exact Hv.
  - unfold Py.numeric, Py.objects. rewrite Hst. constructor.
  - simpl. unfold Py.input_ndim. simpl. lia.
  - unfold Py.already_contiguous_float64. by rewrite Hst.
  - exists (fresh (dom h)). split; [apply fresh_unused|].
    split; [by rewrite <- Hsz|].
    apply lookup_fill_values. lia.
Qed.

(** C8 does not hold as the specification states it: on an [int64]
    vector of [2^53 + 2] items the fill reaches index [2^53 + 1], and the
    double stored there is [(double)(2^53+1)], which is [2^53]. *)
Lemma fill_value_inexact_past_2_53 :
  let n := 2 ^ 53 + 2 in
  let k := 2 ^ 53 + 1 in
  let h : gmap Py.loc Py.storage :=
    {[1%positive := Py.I64 (replicate (Z.to_nat n) 0)]} in
  let a := Py.NdArray 1%positive 0 [n] [1] in
  (∃ l, h !! l = None
     ∧ Py.fill_array (Py.Array a) h
       = (Py.Ok (), <[l := Py.F64 (C.fill_values n)]> h)
     ∧ C.fill_values n !! Z.to_nat k = Some (of_Z k))
  ∧ of_Z k = of_Z (2 ^ 53)
  ∧ ¬ exact (of_Z k) k.
Proof.
  intros n k h a. split; [|split].
  - apply (int64_vector_past_2_53 n (replicate (Z.to_nat n) 0)).
    + rewrite length_replicate. apply Z2Nat.id. by vm_compute.
    + split; by vm_compute.
  - by vm_compute.
  - intros Hex. unfold exact in Hex. vm_compute in Hex. discriminate.
Qed.

(** C8, restated to what the code does.  An integer-typed array the
    wrapper takes, of at most [2^53 + 1] items, is first copied to a new
    [float64] allocation holding the casts of its items; the fill then
    leaves at every index [k] of that allocation a double whose value is
    exactly [k]. *)
Theorem integer_input_exact
    (w : Py.wrapper) (h : gmap Py.loc Py.storage) (a : Py.ndarray)
    (ints : list Z) :
  h !! Py.data a = Some (Py.I64 ints) →
  Py.valid_view h a → Py.accepts w (Py.Array a) →
  Py.size a ≤ 2 ^ 53 + 1 →
  ∃ l zs,
    h !! l = None
    ∧ Py.read ints (Py.indices (Py.shape a) (Py.strides a) (Py.offset a))
      = Some zs
    ∧ Py.ascontiguousarray (Py.Array a) h
      = (Py.Ok (Py.new_array l (Py.shape a)),
         <[l := Py.F64 (of_Z <$> zs)]> h)
    ∧ Py.run w (Py.Array a) h
      = (Py.Ok (), <[l := Py.F64 (C.fill_values (Py.size a))]> h)
    ∧ ∀ k, 0 ≤ k < Py.size a →
        ∃ d, C.fill_values (Py.size a) !! Z.to_nat k = Some d ∧ exact d k.
Proof.
  intros Hst Hv Hacc Hsz.
  destruct (run_copy w h (Py.Array a)) as (ds & Has & Hrun); [done| |done| |].
  { unfold Py.numeric. simpl. rewrite Hst. constructor. }
  { simpl. by rewrite Hst. }
  destruct (ascontiguousarray_int64 h a ints _ _ Hst Has) as (zs & Hr & Hh).
  exists (fresh (dom h)), zs. split; [apply fresh_unused|].
  split; [done|]. split; [by rewrite Has, Hh|]. split; [exact Hrun|].
  intros k Hk. exists (of_Z k). split; [by apply lookup_fill_values|].
  apply of_Z_exact. unfold prec. lia.
Qed.

Lemma integer_input_exact_witness :
  let h : gmap Py.loc Py.storage := {[1%positive := Py.I64 [7; 8; 9]]} in
  let a := Py.NdArray 1%positive 0 [3] [1] in
  ∃ l zs,
    h !! l = None
    ∧ Py.read [7; 8; 9] (Py.indices [3] [1] 0) = Some zs
    ∧ Py.ascontiguousarray (Py.Array a) h
      = (Py.Ok (Py.new_array l [3]), <[l := Py.F64 (of_Z <$> zs)]> h)
    ∧ Py.run Py.OneD (Py.Array a) h
      = (Py.Ok (), <[l := Py.F64 (C.fill_values 3)]> h)
    ∧ ∀ k, 0 ≤ k < 3 →
        ∃ d, C.fill_values 3 !! Z.to_nat k = Some d ∧ exact d k.
Proof.
  intros h a.
  assert (Hst : h !! Py.data a = Some (Py.I64 [7; 8; 9]))
    by apply lookup_singleton_eq.
  apply (integer_input_exact Py.OneD h a [7; 8; 9] Hst).
  - valid_view_of Hst.
  - unfold Py.accepts, Py.input_ndim. simpl. lia.
  - vm_compute. discriminate.
Defined.

(** C9.  When the size passed is the buffer's element count, every index
    the loops store to lies in [[0, size)], respectively
    [[0, rows*cols)], and the call has no undefined behaviour. *)
Theorem fill_in_bounds (l : list double) :
  (∀ size, Z.of_nat (length l) = size → size ≤ SizeT.max →
     ∃ arr', C.fill_array (C.on_entry l) size = C.Returned arr'
       ∧ Forall (λ k, 0 ≤ k < size) (C.stores arr'))
  ∧ (∀ rows cols, SizeT.in_range rows → SizeT.in_range cols →
       Z.of_nat (length l) = rows * cols → rows * cols ≤ SizeT.max →
       ∃ arr', C.fill_array_2d (C.on_entry l) rows cols = C.Returned arr'
         ∧ Forall (λ k, 0 ≤ k < rows * cols) (C.stores arr')).
Proof.
  split.
  - intros size Hlen Hmax.
    rewrite fill_array_spec by (split; lia).
    rewrite fill_result_full by done.
    eexists. split; [done|]. cbn [C.stores C.on_entry].
    apply Forall_seqZ. intros k Hk. lia.
  - intros rows cols Hr Hc Hlen Hmax.
    rewrite fill_array_2d_spec by done.
    rewrite fill_result_full by done.
    eexists. split; [done|]. cbn [C.stores C.on_entry].
    apply Forall_seqZ. intros k Hk. lia.
Qed.

Lemma fill_in_bounds_witness :
  let l := [zero; zero; zero; zero; zero; zero] in
  (∃ arr', C.fill_array (C.on_entry l) 6 = C.Returned arr'
     ∧ Forall (λ k, 0 ≤ k < 6) (C.stores arr'))
  ∧ (∃ arr', C.fill_array_2d (C.on_entry l) 2 3 = C.Returned arr'
       ∧ Forall (λ k, 0 ≤ k < 2 * 3) (C.stores arr')).
Proof.
  intros l. split.
  - apply (proj1 (fill_in_bounds l) 6); [reflexivity|].
    vm_compute. discriminate.
  - apply (proj2 (fill_in_bounds l) 2 3); [in_range|in_range|reflexivity|].
    vm_compute. discriminate.
Defined.

(** C10.  Two buffers of the same length, whatever they held, have the
    same contents after the fill, and so have two buffers of the same
    [rows] by [cols] shape. *)
Theorem fill_independent_of_contents (arr1 arr2 : C.buffer) :
  (∀ n, Z.of_nat (length (C.cells arr1)) = n →
     Z.of_nat (length (C.cells arr2)) = n → n ≤ SizeT.max →
     ∃ out1 out2,
       C.fill_array arr1 n = C.Returned out1
       ∧ C.fill_array arr2 n = C.Returned out2
       ∧ C.cells out1 = C.cells out2)
  ∧ (∀ rows cols, SizeT.in_range rows → SizeT.in_range cols →
       Z.of_nat (length (C.cells arr1)) = rows * cols →
       Z.of_nat (length (C.cells arr2)) = rows * cols →
       rows * cols ≤ SizeT.max →
       ∃ out1 out2,
         C.fill_array_2d arr1 rows cols = C.Returned out1
         ∧ C.fill_array_2d arr2 rows cols = C.Returned out2
         ∧ C.cells out1 = C.cells out2).
Proof.
  split.
  - intros n H1 H2 Hmax.
    rewrite !fill_array_spec by (split; lia).
    rewrite !fill_result_full by done. by eexists _, _.
  - intros rows cols Hr Hc H1 H2 Hmax.
    rewrite !fill_array_2d_spec by done.
    rewrite !fill_result_full by done. by eexists _, _.
Qed.

Lemma fill_independent_of_contents_witness :
  let arr1 := C.on_entry [zero; zero; zero; zero] in
  let arr2 := C.on_entry [of_Z 9; of_Z 8; of_Z 7; of_Z 6] in
  (∃ out1 out2,
     C.fill_array arr1 4 = C.Returned out1
     ∧ C.fill_array arr2 4 = C.Returned out2
     ∧ C.cells out1 = C.cells out2)
  ∧ (∃ out1 out2,
       C.fill_array_2d arr1 2 2 = C.Returned out1
       ∧ C.fill_array_2d arr2 2 2 = C.Returned out2
       ∧ C.cells out1 = C.cells out2).
Proof.
  intros arr1 arr2. split.
  - apply (proj1 (fill_independent_of_contents arr1 arr2) 4);
      [reflexivity|reflexivity|].
    vm_compute. discriminate.
  - apply (proj2 (fill_independent_of_contents arr1 arr2) 2 2);
      [in_range|in_range|reflexivity|reflexivity|].
    vm_compute. discriminate.
Defined.

(** * Further properties of the code *)

(** ** Rounding in the cast *)

Section Rounding.

Lemma digits2_pos_upper (p : positive) :
  Zpos p < 2 ^ Zpos (digits2_pos p).
Proof.
  induction p as [p IH|p IH|]; simpl digits2_pos;
    rewrite ?Pos2Z.inj_succ, ?Z.pow_succ_r by lia; lia.
Qed.

Lemma digits2_pos_eq (p : positive) (n : Z) :
  2 ^ (n - 1) ≤ Zpos p < 2 ^ n → Zpos (digits2_pos p) = n.
Proof.
  intros [Hlo Hhi].
  pose proof (digits2_pos_lower p) as Hl.
  pose proof (digits2_pos_upper p) as Hu.
  assert (0 < n).
  { destruct (Z_lt_le_dec 0 n); [done|]. exfalso.
    assert (2 ^ n ≤ 1).
    { destruct (Z.eq_dec n 0) as [->|]; [simpl; lia|].
      rewrite Z.pow_neg_r by lia. lia. }
    lia. }
  destruct (Z_lt_le_dec (Zpos (digits2_pos p)) n) as [Hlt|Hge].
  - assert (2 ^ Zpos (digits2_pos p) ≤ 2 ^ (n - 1))
      by (apply Z.pow_le_mono_r; lia).
    lia.
  - destruct (Z_lt_le_dec n (Zpos (digits2_pos p))) as [Hlt|Hle]; [|lia].
    assert (2 ^ n ≤ 2 ^ (Zpos (digits2_pos p) - 1))
      by (apply Z.pow_le_mono_r; lia).
    lia.
Qed.

Lemma shr_1_m (mrs : shr_record) :
  0 ≤ shr_m mrs → shr_m (shr_1 mrs) = shr_m mrs / 2.
Proof.
  destruct mrs as [m r s]. cbn [shr_m]. intros Hm.
  rewrite <- Z.div2_div.
  by destruct m as [|[p|p|]|].
Qed.

(** Shifting right [p] times divides the mantissa by [2^p]. *)
Lemma iter_shr_1_m (p : positive) :
  ∀ mrs, 0 ≤ shr_m mrs →
         shr_m (SpecFloat.iter_pos shr_1 p mrs) = shr_m mrs / 2 ^ Zpos p.
Proof.
  induction p as [p IH|p IH|]; intros mrs Hm; cbn [SpecFloat.iter_pos].
  - assert (0 ≤ shr_m (shr_1 mrs))
      by (rewrite shr_1_m by done; apply Z.div_pos; lia).
    assert (0 ≤ shr_m (SpecFloat.iter_pos shr_1 p (shr_1 mrs)))
      by (rewrite IH by done; apply Z.div_pos; lia).
    rewrite !IH, shr_1_m by done.
    rewrite !Z.div_div by lia. f_equal.
    replace (Zpos p~1) with (Zpos p + Zpos p + 1) by lia.
    rewrite !Z.pow_add_r, Z.pow_1_r by lia. lia.
  - assert (0 ≤ shr_m (SpecFloat.iter_pos shr_1 p mrs))
      by (rewrite IH by done; apply Z.div_pos; lia).
    rewrite !IH by done.
    rewrite !Z.div_div by lia. f_equal.
    replace (Zpos p~0) with (Zpos p + Zpos p) by lia.
    rewrite !Z.pow_add_r by lia. lia.
  - by apply shr_1_m.
Qed.

Lemma round_nearest_even_range (m : Z) (l : location) :
  m ≤ round_nearest_even m l ≤ m + 1.
Proof.
  unfold round_nearest_even.
  destruct l as [|[]]; try destruct (Z.even m); lia.
Qed.

Lemma shr_fexp_shift (m s : positive) (e : Z) :
  fexp prec emax (Zpos (digits2_pos m) + e) - e = Zpos s →
  shr_fexp prec emax (Zpos m) e loc_Exact
  = (SpecFloat.iter_pos shr_1 s (Build_shr_record (Zpos m) false false), e + Zpos s).
Proof. intros H. unfold shr_fexp. simpl Zdigits2. by rewrite H. Qed.

Lemma shr_fexp_keep (m : positive) (e : Z) :
  fexp prec emax (Zpos (digits2_pos m) + e) - e = 0 →
  shr_fexp prec emax (Zpos m) e loc_Exact
  = (Build_shr_record (Zpos m) false false, e).
Proof. intros H. unfold shr_fexp. simpl Zdigits2. by rewrite H. Qed.

(** Past [2^53] the cast keeps the 53 leading bits, rounded: the result
    is a finite double whose value is within one unit of its last place
    of the integer. *)
Lemma of_Z_large (p : positive) :
  2 ^ prec ≤ Zpos p < 2 ^ 64 →
  ∃ m e, of_Z (Zpos p) = S754_finite false m e
         ∧ 0 < e
         ∧ Z.abs (Zpos m * 2 ^ e - Zpos p) * 2 ^ 52 ≤ Zpos p.
Proof.
  intros [Hlo Hhi].
  pose proof (digits2_pos_lower p) as Hdl.
  pose proof (digits2_pos_upper p) as Hdu.
  set (d := Zpos (digits2_pos p)) in *.
  assert (Hd : 54 ≤ d ≤ 64).
  { split.
    - destruct (Z_lt_le_dec d 54) as [Hlt|]; [|done].
      assert (2 ^ d ≤ 2 ^ prec) by (apply Z.pow_le_mono_r; unfold prec; lia).
      lia.
    - destruct (Z_lt_le_dec 64 d) as [Hlt|]; [|done].
      assert (2 ^ 64 ≤ 2 ^ (d - 1)) by (apply Z.pow_le_mono_r; lia).
      lia. }
  assert (Hf : fexp prec emax (d + 0) = d - 53)
    by (unfold fexp, emin, prec, emax; lia).
  unfold of_Z, binary_normalize, binary_round. fold d. rewrite Hf.
  unfold shl_align.
  destruct (d - 53 - 0) as [|s|s] eqn:Hs; try lia.
  assert (Hs' : d - 53 = Zpos s) by lia.
  unfold binary_round_aux.
  rewrite (shr_fexp_shift p s 0) by (fold d; lia).
  set (mrs1 := SpecFloat.iter_pos shr_1 s (Build_shr_record (Zpos p) false false)).
  assert (Hm1 : shr_m mrs1 = Zpos p / 2 ^ Zpos s)
    by (unfold mrs1; by rewrite iter_shr_1_m).
  assert (Hpow : 2 ^ (d - 1) = 2 ^ 52 * 2 ^ Zpos s).
  { rewrite <- Z.pow_add_r by lia. f_equal. lia. }
  assert (Hpow' : 2 ^ d = 2 ^ 53 * 2 ^ Zpos s).
  { rewrite <- Z.pow_add_r by lia. f_equal. lia. }
  assert (H2s : 0 < 2 ^ Zpos s) by (apply Z.pow_pos_nonneg; lia).
  assert (Hq : 2 ^ 52 ≤ Zpos p / 2 ^ Zpos s < 2 ^ 53).
  { split.
    - apply Z.div_le_lower_bound; lia.
    - apply Z.div_lt_upper_bound; lia. }
  pose proof (Z.mul_div_le (Zpos p) (2 ^ Zpos s) H2s) as Hfl.
  pose proof (Z.mul_succ_div_gt (Zpos p) (2 ^ Zpos s) H2s) as Hce.
  pose proof (round_nearest_even_range (shr_m mrs1)
                (loc_of_shr_record mrs1)) as Hrne.
  destruct (round_nearest_even (shr_m mrs1) (loc_of_shr_record mrs1))
    as [|q|q] eqn:Hq2; try lia.
  rewrite Hm1 in Hrne.
  destruct (Z_lt_le_dec (Zpos q) (2 ^ 53)) as [Hlt|Hge].
  - rewrite (shr_fexp_keep q).
    + cbn [shr_m].
      destruct (Z.leb_spec (0 + Zpos s) (emax - prec));
        [|unfold emax, prec in *; lia].
      exists q, (0 + Zpos s). split; [done|]. split; [lia|].
      rewrite Z.add_0_l. nia.
    + rewrite (digits2_pos_eq q 53) by (simpl; lia).
      unfold fexp, emin, prec, emax. lia.
  - assert (Zpos q = 2 ^ 53) as Hq53 by lia.
    rewrite (shr_fexp_shift q 1).
    + cbn [SpecFloat.iter_pos].
      assert (Hh : shr_m (shr_1 (Build_shr_record (Zpos q) false false))
                   = 2 ^ 52).
      { rewrite shr_1_m by (cbn; lia). cbn [shr_m]. rewrite Hq53.
        by vm_compute. }
      rewrite Hh. change (2 ^ 52) with (Zpos (2 ^ 52)%positive).
      cbv iota beta.
      destruct (Z.leb_spec (0 + Zpos s + 1) (emax - prec));
        [|unfold emax, prec in *; lia].
      exists (2 ^ 52)%positive, (0 + Zpos s + 1).
      split; [done|]. split; [lia|].
      replace (0 + Zpos s + 1) with (Z.succ (Zpos s)) by lia.
      rewrite Z.pow_succ_r by lia.
      change (Zpos (2 ^ 52)) with (2 ^ 52). change (2 ^ 53) with (2 * 2 ^ 52) in *.
      nia.
    + rewrite (digits2_pos_eq q 54) by (rewrite Hq53; by vm_compute).
      unfold fexp, emin, prec, emax. lia.
Qed.

(** The double stored for any [size_t] denotes an integer, the index
    itself up to [2^53] and within one unit of the last place of it
    beyond. *)
Lemma of_Z_size_t (i : Z) :
  SizeT.in_range i →
  ∃ k, exact (of_Z i) k ∧ Z.abs (k - i) * 2 ^ 52 ≤ i.
Proof.
  intros [H0 Hmax].
  destruct (Z_le_gt_dec i (2 ^ prec)) as [Hle|Hgt].
  - exists i. split; [by apply of_Z_exact|]. rewrite Z.sub_diag. simpl. lia.
  - destruct i as [|p|p]; try lia.
    destruct (of_Z_large p) as (m & e & -> & He & Herr).
    { unfold SizeT.max, SizeT.modulus, SizeT.bits in Hmax. lia. }
    exists (Zpos m * 2 ^ e). split; [|done].
    unfold exact, exactb, signed. cbn [cond_Zopp].
    destruct (Z.leb_spec 0 e); [apply Z.eqb_refl|lia].
Qed.

End Rounding.

(** ** What the native routines touch *)

Section NativeFrame.
Import C.

Lemma lookup_filled_prefix (l : list double) (n k : Z) :
  0 ≤ k < n →
  (fill_values n ++ drop (Z.to_nat n) l) !! Z.to_nat k = Some (of_Z k).
Proof.
  intros Hk. rewrite lookup_app_l by (rewrite length_fill_values; lia).
  by apply lookup_fill_values.
Qed.

Lemma lookup_filled_rest (l : list double) (n : Z) (k : nat) :
  0 ≤ n ≤ Z.of_nat k →
  (fill_values n ++ drop (Z.to_nat n) l) !! k = l !! k.
Proof.
  intros Hk. rewrite lookup_app_r by (rewrite length_fill_values; lia).
  rewrite length_fill_values, lookup_drop. f_equal. lia.
Qed.

Lemma length_filled (l : list double) (n : Z) :
  0 ≤ n ≤ Z.of_nat (length l) →
  length (fill_values n ++ drop (Z.to_nat n) l) = length l.
Proof.
  intros Hn. rewrite length_app, length_fill_values, length_drop. lia.
Qed.

Lemma fill_result_undefined (arr : buffer) (n : Z) :
  fill_result arr n = Undefined ↔ Z.of_nat (length (cells arr)) < n.
Proof.
  unfold fill_result.
  destruct (decide (n ≤ Z.of_nat (length (cells arr)))); split;
    (done || lia).
Qed.

(** A fill of [n] slots, cell by cell. *)
Lemma fill_result_cells (arr : buffer) (n : Z) :
  0 ≤ n ≤ Z.of_nat (length (cells arr)) →
  ∃ arr', fill_result arr n = Returned arr'
    ∧ length (cells arr') = length (cells arr)
    ∧ (∀ k, 0 ≤ k < n → cells arr' !! Z.to_nat k = Some (of_Z k))
    ∧ (∀ k : nat, n ≤ Z.of_nat k → cells arr' !! k = cells arr !! k)
    ∧ stores arr' = stores arr ++ seqZ 0 n.
Proof.
  intros Hn. rewrite fill_result_returned by done.
  eexists. split; [done|]. cbn [cells stores].
  split; [by apply length_filled|].
  split; [intros k Hk; by apply lookup_filled_prefix|].
  split; [intros k Hk; apply lookup_filled_rest; lia|done].
Qed.

Lemma exact_unique (d : double) (k k' : Z) :
  exact d k → exact d k' → k = k'.
Proof.
  unfold exact, exactb. destruct d as [s|s| |s m e]; try done.
  - intros ->%Z.eqb_eq ->%Z.eqb_eq. done.
  - destruct (Z.leb_spec 0 e).
    + intros <-%Z.eqb_eq <-%Z.eqb_eq. done.
    + intros H1%Z.eqb_eq H2%Z.eqb_eq.
      assert (0 < 2 ^ (- e)) by (apply Z.pow_pos_nonneg; lia).
      nia.
Qed.

(** Up to [2^53] the cast sends different integers to different
    doubles. *)
Lemma of_Z_inj (i j : Z) :
  0 ≤ i ≤ 2 ^ prec → 0 ≤ j ≤ 2 ^ prec → of_Z i = of_Z j → i = j.
Proof.
  intros Hi Hj Heq. apply (exact_unique (of_Z i)).
  - by apply of_Z_exact.
  - rewrite Heq. by apply of_Z_exact.
Qed.

Lemma NoDup_fill_values (n : Z) : n ≤ 2 ^ prec + 1 → NoDup (fill_values n).
Proof.
  intros Hn. unfold fill_values. apply NoDup_fmap_2_strong.
  - intros i j Hi%elem_of_seqZ Hj%elem_of_seqZ. apply of_Z_inj; lia.
  - apply NoDup_seqZ.
Qed.

End NativeFrame.

(** ** What the wrappers touch *)

Section WrapperFrame.
Import Py.
Implicit Types (h : heap) (a arr : ndarray) (x : array_like).

Lemma length_overwrite (l new : list double) (off : Z) :
  0 ≤ off → off + Z.of_nat (length new) ≤ Z.of_nat (length l) →
  length (overwrite l off new) = length l.
Proof.
  intros Hoff Hfit. unfold overwrite.
  rewrite !length_app, length_take, length_drop. lia.
Qed.

Lemma lookup_overwrite_outside (l new : list double) (off : Z) (k : nat) :
  0 ≤ off → off + Z.of_nat (length new) ≤ Z.of_nat (length l) →
  Z.of_nat k < off ∨ off + Z.of_nat (length new) ≤ Z.of_nat k →
  overwrite l off new !! k = l !! k.
Proof.
  intros Hoff Hfit Hk. unfold overwrite. destruct Hk as [Hk|Hk].
  - rewrite lookup_app_l by (rewrite length_take; lia).
    apply lookup_take_lt. lia.
  - rewrite lookup_app_r by (rewrite length_take; lia).
    rewrite lookup_app_r by (rewrite length_take; lia).
    rewrite length_take, lookup_drop. f_equal. lia.
Qed.

Lemma overwrite_twice (l new : list double) (off : Z) :
  0 ≤ off → off + Z.of_nat (length new) ≤ Z.of_nat (length l) →
  overwrite (overwrite l off new) off new = overwrite l off new.
Proof.
  intros Hoff Hfit.
  assert (H1 : take (Z.to_nat off) (overwrite l off new)
               = take (Z.to_nat off) l).
  { unfold overwrite. rewrite take_app_length'; [done|].
    rewrite length_take. lia. }
  assert (H2 : drop (Z.to_nat off + length new) (overwrite l off new)
               = drop (Z.to_nat off + length new) l).
  { unfold overwrite. rewrite (assoc_L (++)).
    rewrite drop_app_length'; [done|].
    rewrite length_app, length_take. lia. }
  unfold overwrite at 1. by rewrite H1, H2.
Qed.

(** What an in-place fill leaves in the array's allocation, whether or
    not the view has items. *)
Lemma overwrite_extent (l : list double) (off n : Z) :
  0 ≤ n →
  n = 0 ∨ (0 ≤ off ∧ off + n ≤ Z.of_nat (length l)) →
  length (overwrite l off (C.fill_values n)) = length l
  ∧ (∀ k : nat, Z.of_nat k < off ∨ off + n ≤ Z.of_nat k →
       overwrite l off (C.fill_values n) !! k = l !! k)
  ∧ overwrite (overwrite l off (C.fill_values n)) off (C.fill_values n)
    = overwrite l off (C.fill_values n).
Proof.
  intros Hn [->|[Hoff Hfit]].
  - change (C.fill_values 0) with (@nil double).
    by rewrite !overwrite_nothing.
  - pose proof (length_fill_values n) as Hlen.
    split; [apply length_overwrite; lia|].
    split; [|apply overwrite_twice; lia].
    intros k Hk. apply lookup_overwrite_outside; lia.
Qed.

Lemma valid_view_insert h a (l l' : list double) :
  h !! data a = Some (F64 l) → length l' = length l →
  valid_view h a → valid_view (<[data a := F64 l']> h) a.
Proof.
  intros Hst Hlen. unfold valid_view. rewrite Hst, lookup_insert_eq.
  simpl. by rewrite Hlen.
Qed.

Lemma size_nonneg h a : valid_view h a → 0 ≤ size a.
Proof.
  unfold valid_view. destruct (h !! data a); [|done].
  intros (_ & Hd & _). by apply prod_nonneg, in_range_nonneg.
Qed.

(** A wrapper never leaves the store half-way: whatever it raises, the
    allocations that existed are as they were. *)
Lemma run_raised_frame (w : wrapper) h x (e : exn) h' :
  valid_input h x → run w x h = (Raised e, h') →
  ∀ l', is_Some (h !! l') → h' !! l' = h !! l'.
Proof.
  intros Hv Hrun.
  destruct (numeric_or_not h x) as [Hnum|Hnn].
  - destruct (accepts_dec w x) as [Hacc|Hrej].
    + pose proof (run_accepted w h x Hv Hnum Hacc) as Hok.
      by rewrite Hrun in Hok.
    + destruct (run_rejected w h x Hv Hnum Hrej) as (h'' & Hrun' & Hh'').
      rewrite Hrun in Hrun'. injection Hrun' as _ ->.
      destruct (already_contiguous_float64 h x).
      * by rewrite Hh''.
      * destruct Hh'' as (ds & ->). intros l'. apply insert_fresh_frame.
  - rewrite (run_non_numeric w h x Hv Hnn) in Hrun.
    by injection Hrun as _ ->.
Qed.


(** A new C-order array over data of the right length is a valid
    view. *)
Lemma valid_view_c_order h (l : loc) (dims : list Z) (ds : list double) :
  Forall SizeT.in_range dims → prod dims ≤ SizeT.max →
  length ds = Z.to_nat (prod dims) →
  valid_view (<[l := F64 ds]> h) (NdArray l 0 dims (c_strides dims)).
Proof.
  intros Hdims Hsz Hlen. unfold valid_view. cbn [data shape strides offset].
  rewrite lookup_insert_eq.
  split; [apply length_c_strides|]. split; [done|]. split; [done|].
  pose proof (in_range_nonneg dims Hdims) as Hnn.
  pose proof (prod_nonneg dims Hnn) as Hp.
  destruct (existsb (Z.eqb 0) dims) eqn:Hz.
  - pose proof (length_indices dims (c_strides dims) 0
                  (length_c_strides dims) Hnn) as Hli.
    rewrite (prod_zero dims Hz) in Hli.
    by destruct (indices dims (c_strides dims) 0).
  - rewrite indices_row_major.
    + apply Forall_seqZ. intros k Hk. simpl. lia.
    + apply length_c_strides.
    + by apply no_zero_positive.
    + by apply row_major_c_strides.
Qed.

Lemma zeros_run (dims : list nat) h :
  zeros dims h
  = (Ok (NdArray (fresh (dom h)) 0 (Z.of_nat <$> dims)
           (c_strides (Z.of_nat <$> dims))),
     <[fresh (dom h) :=
         F64 (replicate (Z.to_nat (prod (Z.of_nat <$> dims))) zero)]> h).
Proof. reflexivity. Qed.

Lemma in_range_of_nat (dims : list nat) :
  Forall (λ d, Z.of_nat d ≤ SizeT.max) dims →
  Forall SizeT.in_range (Z.of_nat <$> dims).
Proof.
  intros H. apply Forall_fmap. eapply Forall_impl; [done|].
  intros d Hd. split; [lia|done].
Qed.

(** [np.zeros] followed by the wrapper that takes its shape: the fill
    happens in the new array, which then holds the fill values. *)
Lemma zeros_then_run (w : wrapper) (dims : list nat) h :
  Forall (λ d, Z.of_nat d ≤ SizeT.max) dims →
  prod (Z.of_nat <$> dims) ≤ SizeT.max →
  (match w with
   | OneD => length dims ≤ 1
   | TwoD => length dims = 2
   end)%nat →
  let array := NdArray (fresh (dom h)) 0 (Z.of_nat <$> dims)
                 (c_strides (Z.of_nat <$> dims)) in
  let h1 := <[fresh (dom h) :=
                F64 (replicate (Z.to_nat (prod (Z.of_nat <$> dims))) zero)]> h
  in
  zeros dims h = (Ok array, h1)
  ∧ valid_view h1 array
  ∧ c_contiguous array = true
  ∧ run w (Array array) h1
    = (Ok (), <[fresh (dom h) := F64 (C.fill_values (size array))]> h).
Proof.
  intros Hdims Hsz Hnd array h1.
  assert (Hv : valid_view h1 array).
  { apply valid_view_c_order; [by apply in_range_of_nat|done|].
    by rewrite length_replicate. }
  assert (Hc : c_contiguous array = true) by apply c_contiguous_c_strides.
  split; [apply zeros_run|]. split; [done|]. split; [done|].
  destruct (run_in_place w h1 (Array array))
    as (a' & l & [= <-] & Hst & _ & _ & ->).
  - done.
  - unfold accepts, input_ndim, input_shape, array. cbn [shape].
    rewrite length_fmap. by destruct w.
  - simpl. unfold h1 at 1. rewrite lookup_insert_eq. simpl.
    by rewrite Hc.
  - unfold h1 in Hst. cbn [data array] in Hst.
    rewrite lookup_insert_eq in Hst. injection Hst as <-.
    unfold h1. cbn [data offset array].
    rewrite insert_insert_eq, overwrite_all; [done|].
    rewrite length_fill_values, length_replicate. done.
Qed.

End WrapperFrame.

(** ** The properties, X1 to X12 *)

(** X1.  Called with a size smaller than the buffer, the routines fill
    exactly the first [size] (respectively [rows*cols]) slots and leave
    every later cell, and the length, as they were. *)
Theorem fill_prefix_keeps_rest (arr : C.buffer) :
  (∀ n, SizeT.in_range n → n ≤ Z.of_nat (length (C.cells arr)) →
     ∃ arr', C.fill_array arr n = C.Returned arr'
       ∧ length (C.cells arr') = length (C.cells arr)
       ∧ (∀ k, 0 ≤ k < n → C.cells arr' !! Z.to_nat k = Some (of_Z k))
       ∧ (∀ k : nat, n ≤ Z.of_nat k →
            C.cells arr' !! k = C.cells arr !! k))
  ∧ (∀ rows cols, SizeT.in_range rows → SizeT.in_range cols →
       rows * cols ≤ SizeT.max →
       rows * cols ≤ Z.of_nat (length (C.cells arr)) →
       ∃ arr', C.fill_array_2d arr rows cols = C.Returned arr'
         ∧ length (C.cells arr') = length (C.cells arr)
         ∧ (∀ k, 0 ≤ k < rows * cols →
              C.cells arr' !! Z.to_nat k = Some (of_Z k))
         ∧ (∀ k : nat, rows * cols ≤ Z.of_nat k →
              C.cells arr' !! k = C.cells arr !! k)).
Proof.
  split.
  - intros n Hn Hlen. rewrite fill_array_spec by done.
    destruct (fill_result_cells arr n) as (arr' & -> & ? & ? & ? & _);
      [destruct Hn; lia|].
    by exists arr'.
  - intros rows cols Hr Hc Hmax Hlen. rewrite fill_array_2d_spec by done.
    destruct (fill_result_cells arr (rows * cols))
      as (arr' & -> & ? & ? & ? & _); [destruct Hr, Hc; nia|].
    by exists arr'.
Qed.

Lemma fill_prefix_keeps_rest_witness :
  let arr := C.on_entry [of_Z 9; of_Z 9; of_Z 9; of_Z 9; of_Z 9] in
  (∃ arr', C.fill_array arr 3 = C.Returned arr'
     ∧ length (C.cells arr') = 5%nat
     ∧ (∀ k, 0 ≤ k < 3 → C.cells arr' !! Z.to_nat k = Some (of_Z k))
     ∧ (∀ k : nat, 3 ≤ Z.of_nat k → C.cells arr' !! k = C.cells arr !! k))
  ∧ (∃ arr', C.fill_array_2d arr 2 2 = C.Returned arr'
       ∧ length (C.cells arr') = 5%nat
       ∧ (∀ k, 0 ≤ k < 2 * 2 → C.cells arr' !! Z.to_nat k = Some (of_Z k))
       ∧ (∀ k : nat, 2 * 2 ≤ Z.of_nat k →
            C.cells arr' !! k = C.cells arr !! k)).
Proof.
  intros arr. split.
  - apply (proj1 (fill_prefix_keeps_rest arr) 3); [in_range|].
    vm_compute. discriminate.
  - apply (proj2 (fill_prefix_keeps_rest arr) 2 2); [in_range|in_range| |];
      vm_compute; discriminate.
Defined.

(** X2.  The routines check no bound: the call is undefined behaviour
    exactly when the size passed (respectively [rows*cols]) exceeds the
    buffer's length. *)
Theorem fill_overrun_undefined (arr : C.buffer) :
  (∀ n, SizeT.in_range n →
     (C.fill_array arr n = C.Undefined
      ↔ Z.of_nat (length (C.cells arr)) < n))
  ∧ (∀ rows cols, SizeT.in_range rows → SizeT.in_range cols →
       rows * cols ≤ SizeT.max →
       (C.fill_array_2d arr rows cols = C.Undefined
        ↔ Z.of_nat (length (C.cells arr)) < rows * cols)).
Proof.
  split.
  - intros n Hn. rewrite fill_array_spec by done.
    apply fill_result_undefined.
  - intros rows cols Hr Hc Hmax. rewrite fill_array_2d_spec by done.
    apply fill_result_undefined.
Qed.

Lemma fill_overrun_undefined_witness :
  let arr := C.on_entry [zero; zero; zero] in
  C.fill_array arr 4 = C.Undefined
  ∧ C.fill_array_2d arr 2 2 = C.Undefined.
Proof.
  intros arr. split.
  - apply (proj1 (fill_overrun_undefined arr) 4); [in_range|].
    vm_compute. reflexivity.
  - apply (proj2 (fill_overrun_undefined arr) 2 2); [in_range|in_range| |].
    + vm_compute. discriminate.
    + vm_compute. reflexivity.
Defined.

(** X3.  The routines store to each slot once, in ascending order of the
    flat index: the 2-D routine row after row, and within a row column
    after column. *)
Theorem fill_stores_each_slot_once (l : list double) :
  (∀ n, SizeT.in_range n → n ≤ Z.of_nat (length l) →
     ∃ arr', C.fill_array (C.on_entry l) n = C.Returned arr'
       ∧ C.stores arr' = seqZ 0 n
       ∧ NoDup (C.stores arr'))
  ∧ (∀ rows cols, SizeT.in_range rows → SizeT.in_range cols →
       rows * cols ≤ SizeT.max → rows * cols ≤ Z.of_nat (length l) →
       ∃ arr', C.fill_array_2d (C.on_entry l) rows cols = C.Returned arr'
         ∧ C.stores arr'
           = (seqZ 0 rows ≫= λ i, (λ j, i * cols + j) <$> seqZ 0 cols)
         ∧ NoDup (C.stores arr')).
Proof.
  split.
  - intros n Hn Hlen. rewrite fill_array_spec by done.
    destruct (fill_result_cells (C.on_entry l) n)
      as (arr' & -> & _ & _ & _ & Hlog); [destruct Hn; done|].
    exists arr'. split; [done|]. rewrite Hlog. simpl.
    split; [done|apply NoDup_seqZ].
  - intros rows cols Hr Hc Hmax Hlen. rewrite fill_array_2d_spec by done.
    destruct (fill_result_cells (C.on_entry l) (rows * cols))
      as (arr' & -> & _ & _ & _ & Hlog); [destruct Hr, Hc; split; [nia|done]|].
    exists arr'. split; [done|]. rewrite Hlog. simpl.
    split; [|apply NoDup_seqZ].
    destruct Hr as [Hr0 _], Hc as [Hc0 _].
    rewrite <- (Z2Nat.id rows) by done.
    rewrite <- (bind_seqZ_blocks 0 cols (Z.to_nat rows)) by done.
    apply list_bind_ext; [|done]. intros i.
    rewrite Z.add_0_l. rewrite <- (Z.add_0_r (i * cols)) at 1.
    by rewrite <- fmap_add_seqZ.
Qed.

Lemma fill_stores_each_slot_once_witness :
  let l := [zero; zero; zero; zero; zero; zero] in
  (∃ arr', C.fill_array (C.on_entry l) 6 = C.Returned arr'
     ∧ C.stores arr' = seqZ 0 6
     ∧ NoDup (C.stores arr'))
  ∧ (∃ arr', C.fill_array_2d (C.on_entry l) 2 3 = C.Returned arr'
       ∧ C.stores arr'
         = (seqZ 0 2 ≫= λ i, (λ j, i * 3 + j) <$> seqZ 0 3)
       ∧ NoDup (C.stores arr')).
Proof.
  intros l. split.
  - apply (proj1 (fill_stores_each_slot_once l) 6); [in_range|].
    vm_compute. discriminate.
  - apply (proj2 (fill_stores_each_slot_once l) 2 3);
      [in_range|in_range| |]; vm_compute; discriminate.
Defined.

(** X4.  On a buffer of at most [2^53 + 1] doubles the values written
    are pairwise distinct: no two slots hold the same double. *)
Theorem fill_values_distinct (arr : C.buffer) (n : Z) :
  Z.of_nat (length (C.cells arr)) = n → n ≤ 2 ^ 53 + 1 →
  ∃ arr', C.fill_array arr n = C.Returned arr' ∧ NoDup (C.cells arr').
Proof.
  intros Hlen Hn.
  rewrite fill_array_spec by (split; [lia|]; etrans; [done|by vm_compute]).
  rewrite fill_result_full by done.
  eexists. split; [done|]. cbn [C.cells]. by apply NoDup_fill_values.
Qed.

Lemma fill_values_distinct_witness :
  ∃ arr', C.fill_array (C.on_entry [zero; zero; zero]) 3 = C.Returned arr'
          ∧ NoDup (C.cells arr').
Proof.
  apply (fill_values_distinct (C.on_entry [zero; zero; zero]) 3).
  - reflexivity.
  - vm_compute. discriminate.
Defined.

(** X5.  Whatever the buffer's length, every double the 1-D routine
    stores is finite and denotes an integer [k] close to its index [i]:
    [|k - i| * 2^52 <= i], so [k = i] up to [2^53] and the error stays
    within one unit of the last place beyond. *)
Theorem fill_values_near_index (arr : C.buffer) (n : Z) :
  Z.of_nat (length (C.cells arr)) = n → n ≤ SizeT.max →
  ∃ arr', C.fill_array arr n = C.Returned arr'
    ∧ ∀ i, 0 ≤ i < n →
        ∃ d k, C.cells arr' !! Z.to_nat i = Some d
               ∧ is_finite d = true
               ∧ exact d k
               ∧ Z.abs (k - i) * 2 ^ 52 ≤ i.
Proof.
  intros Hlen Hn.
  rewrite fill_array_spec by (split; lia).
  rewrite fill_result_full by done.
  eexists. split; [done|]. cbn [C.cells]. intros i Hi.
  destruct (of_Z_size_t i) as (k & Hex & Herr); [split; lia|].
  exists (of_Z i), k. split; [by apply lookup_fill_values|].
  split; [|done].
  unfold exact, exactb in Hex. by destruct (of_Z i).
Qed.

Lemma fill_values_near_index_witness :
  ∃ arr', C.fill_array (C.on_entry [zero; zero; zero]) 3 = C.Returned arr'
    ∧ ∀ i, 0 ≤ i < 3 →
        ∃ d k, C.cells arr' !! Z.to_nat i = Some d
               ∧ is_finite d = true
               ∧ exact d k
               ∧ Z.abs (k - i) * 2 ^ 52 ≤ i.
Proof.
  apply (fill_values_near_index (C.on_entry [zero; zero; zero]) 3).
  - reflexivity.
  - vm_compute. discriminate.
Defined.



(** X7.  Whatever a wrapper raises, every allocation that existed before
    the call is as it was: an array of the wrong dimensionality is not
    filled in part. *)
Theorem wrapper_failure_keeps_store
    (w : Py.wrapper) (h h' : gmap Py.loc Py.storage) (x : Py.array_like)
    (e : Py.exn) :
  Py.valid_input h x → Py.run w x h = (Py.Raised e, h') →
  ∀ l', is_Some (h !! l') → h' !! l' = h !! l'.
Proof. apply run_raised_frame. Qed.

(** A transposed matrix passed to the 1-D wrapper: it is copied, the
    call raises, and the matrix keeps its items. *)
Lemma wrapper_failure_keeps_store_witness :
  let cells := [of_Z 7; of_Z 8; of_Z 9; of_Z 10] in
  let h : gmap Py.loc Py.storage := {[1%positive := Py.F64 cells]} in
  let x := Py.Array (Py.NdArray 1%positive 0 [2; 2] [1; 2]) in
  ∃ h', Py.run Py.OneD x h = (Py.Raised (Py.ArgumentError Py.WrongNdim), h')
        ∧ ∀ l', is_Some (h !! l') → h' !! l' = h !! l'.
Proof.
  intros cells h x.
  assert (Hst : h !! Py.data (Py.NdArray 1%positive 0 [2; 2] [1; 2])
                = Some (Py.F64 cells))
    by apply lookup_singleton_eq.
  assert (Hv : Py.valid_input h x).
  { unfold Py.valid_input, x. valid_view_of Hst. }
  destruct (run_rejected Py.OneD h x Hv) as (h' & Hrun & _).
  - unfold Py.numeric, Py.objects, x. rewrite Hst. constructor.
  - unfold Py.accepts, Py.input_ndim, x. simpl. lia.
  - exists h'. split; [exact Hrun|].
    exact (wrapper_failure_keeps_store Py.OneD h h' x _ Hv Hrun).
Defined.

(** X8.  A wrapper filling a contiguous [float64] view in place writes
    the fill values over the view's own extent of the allocation and
    nothing else: the allocation keeps its length, and every cell before
    the view's first item or after its last keeps its value. *)
Theorem wrapper_fills_only_the_view
    (w : Py.wrapper) (h : gmap Py.loc Py.storage) (a : Py.ndarray)
    (l : list double) :
  h !! Py.data a = Some (Py.F64 l) →
  Py.valid_view h a → Py.c_contiguous a = true →
  Py.accepts w (Py.Array a) →
  ∃ h' l',
    Py.run w (Py.Array a) h = (Py.Ok (), h')
    ∧ h' !! Py.data a = Some (Py.F64 l')
    ∧ length l' = length l
    ∧ (∀ k, 0 ≤ k < Py.size a →
         Py.item l' (Py.offset a + k) = Some (of_Z k))
    ∧ (∀ k : nat,
         Z.of_nat k < Py.offset a ∨ Py.offset a + Py.size a ≤ Z.of_nat k →
         l' !! k = l !! k).
Proof.
  intros Hst Hv Hc Hacc.
  destruct (run_in_place w h (Py.Array a) Hv Hacc)
    as (a' & l0 & [= <-] & Hst' & _ & Hext & Hrun).
  { simpl. by rewrite Hst, Hc. }
  rewrite Hst in Hst'. injection Hst' as <-.
  pose proof (size_nonneg h a Hv) as Hnn.
  destruct (overwrite_extent l (Py.offset a) (Py.size a) Hnn Hext)
    as (Hlen & Hout & _).
  eexists _, _. split; [exact Hrun|].
  split; [by rewrite lookup_insert_eq|]. split; [done|].
  split; [|done].
  intros k Hk. destruct Hext as [Hz|[Hoff Hfit]]; [lia|].
  rewrite item_overwrite by (rewrite ?length_fill_values; lia).
  by apply lookup_fill_values.
Qed.

(** The slice [v[1:4]] of a five-item vector: items 1 to 3 are filled,
    items 0 and 4 keep the value 9. *)
Lemma wrapper_fills_only_the_view_witness :
  let l := [of_Z 9; of_Z 9; of_Z 9; of_Z 9; of_Z 9] in
  let h : gmap Py.loc Py.storage := {[1%positive := Py.F64 l]} in
  let a := Py.NdArray 1%positive 1 [3] [1] in
  ∃ h' l',
    Py.run Py.OneD (Py.Array a) h = (Py.Ok (), h')
    ∧ h' !! Py.data a = Some (Py.F64 l')
    ∧ length l' = length l
    ∧ (∀ k, 0 ≤ k < Py.size a →
         Py.item l' (Py.offset a + k) = Some (of_Z k))
    ∧ (∀ k : nat,
         Z.of_nat k < Py.offset a ∨ Py.offset a + Py.size a ≤ Z.of_nat k →
         l' !! k = l !! k).
Proof.
  intros l h a.
  assert (Hst : h !! Py.data a = Some (Py.F64 l))
    by apply lookup_singleton_eq.
  apply (wrapper_fills_only_the_view Py.OneD h a l Hst).
  - valid_view_of Hst.
  - reflexivity.
  - unfold Py.accepts, Py.input_ndim. simpl. lia.
Defined.

(** X9.  Filling a contiguous [float64] array in place a second time
    changes nothing: the second call returns normally and leaves the
    store exactly as the first call left it. *)
Theorem wrapper_idempotent_in_place
    (w : Py.wrapper) (h : gmap Py.loc Py.storage) (a : Py.ndarray)
    (l : list double) :
  h !! Py.data a = Some (Py.F64 l) →
  Py.valid_view h a → Py.c_contiguous a = true →
  Py.accepts w (Py.Array a) →
  ∃ h', Py.run w (Py.Array a) h = (Py.Ok (), h')
        ∧ Py.run w (Py.Array a) h' = (Py.Ok (), h').
Proof.
  intros Hst Hv Hc Hacc.
  destruct (run_in_place w h (Py.Array a) Hv Hacc)
    as (a' & l0 & [= <-] & Hst' & _ & Hext & Hrun).
  { simpl. by rewrite Hst, Hc. }
  rewrite Hst in Hst'. injection Hst' as <-.
  pose proof (size_nonneg h a Hv) as Hnn.
  destruct (overwrite_extent l (Py.offset a) (Py.size a) Hnn Hext)
    as (Hlen & _ & Htwice).
  eexists. split; [exact Hrun|].
  set (l1 := Py.overwrite l (Py.offset a) (C.fill_values (Py.size a))) in *.
  destruct (run_in_place w (<[Py.data a := Py.F64 l1]> h) (Py.Array a))
    as (a' & l2 & [= <-] & Hst2 & _ & _ & Hrun2).
  - by apply (valid_view_insert h a l).
  - done.
  - simpl. by rewrite lookup_insert_eq, Hc.
  - rewrite lookup_insert_eq in Hst2. injection Hst2 as <-.
    rewrite Hrun2. by rewrite Htwice, insert_insert_eq.
Qed.

Lemma wrapper_idempotent_in_place_witness :
  let l := [of_Z 9; of_Z 9; of_Z 9; of_Z 9; of_Z 9; of_Z 9] in
  let h : gmap Py.loc Py.storage := {[1%positive := Py.F64 l]} in
  let a := Py.NdArray 1%positive 0 [2; 3] [3; 1] in
  ∃ h', Py.run Py.TwoD (Py.Array a) h = (Py.Ok (), h')
        ∧ Py.run Py.TwoD (Py.Array a) h' = (Py.Ok (), h').
Proof.
  intros l h a.
  assert (Hst : h !! Py.data a = Some (Py.F64 l))
    by apply lookup_singleton_eq.
  apply (wrapper_idempotent_in_place Py.TwoD h a l Hst).
  - valid_view_of Hst.
  - reflexivity.
  - reflexivity.
Defined.

(** X10.  The two wrappers agree on the same data: the 2-D wrapper on a
    contiguous [float64] matrix and the 1-D wrapper on a contiguous
    vector over the same items end in the same store. *)
Theorem wrappers_agree_on_flat_data
    (h : gmap Py.loc Py.storage) (m v : Py.ndarray) (rows cols : Z) :
  Py.already_contiguous_float64 h (Py.Array m) = true →
  Py.already_contiguous_float64 h (Py.Array v) = true →
  Py.valid_view h m → Py.valid_view h v →
  Py.data v = Py.data m → Py.offset v = Py.offset m →
  Py.shape m = [rows; cols] → Py.shape v = [rows * cols] →
  ∃ h', Py.fill_array_2d (Py.Array m) h = (Py.Ok (), h')
        ∧ Py.fill_array (Py.Array v) h = (Py.Ok (), h').
Proof.
  intros Hm Hv Hvm Hvv Hdata Hoff Hsm Hsv.
  destruct (run_in_place Py.TwoD h (Py.Array m) Hvm)
    as (m' & l & [= <-] & Hst & _ & _ & Hrun); [|done|].
  { simpl. unfold Py.input_ndim. simpl. by rewrite Hsm. }
  destruct (run_in_place Py.OneD h (Py.Array v) Hvv)
    as (v' & l' & [= <-] & Hst' & _ & _ & Hrun'); [|done|].
  { simpl. unfold Py.input_ndim. simpl. rewrite Hsv. simpl. lia. }
  eexists. split; [exact Hrun|].
  simpl in Hrun'. rewrite Hrun'.
  rewrite Hdata in Hst'. rewrite Hst in Hst'. injection Hst' as <-.
  rewrite Hdata, Hoff. do 4 f_equal.
  unfold Py.size, Py.prod. rewrite Hsm, Hsv. cbn [foldr]. f_equal. lia.
Qed.

Lemma wrappers_agree_on_flat_data_witness :
  let l := [zero; zero; zero; zero; zero; zero] in
  let h : gmap Py.loc Py.storage := {[1%positive := Py.F64 l]} in
  let m := Py.NdArray 1%positive 0 [2; 3] [3; 1] in
  let v := Py.NdArray 1%positive 0 [6] [1] in
  ∃ h', Py.fill_array_2d (Py.Array m) h = (Py.Ok (), h')
        ∧ Py.fill_array (Py.Array v) h = (Py.Ok (), h').
Proof.
  intros l h m v.
  assert (Hm : h !! Py.data m = Some (Py.F64 l))
    by apply lookup_singleton_eq.
  assert (Hv : h !! Py.data v = Some (Py.F64 l))
    by apply lookup_singleton_eq.
  apply (wrappers_agree_on_flat_data h m v 2 3).
  - unfold Py.already_contiguous_float64. rewrite Hm. reflexivity.
  - unfold Py.already_contiguous_float64. rewrite Hv. reflexivity.
  - valid_view_of Hm.
  - valid_view_of Hv.
  - reflexivity.
  - reflexivity.
  - reflexivity.
  - reflexivity.
Defined.

(** X11.  The notebook's 1-D usage cell, for any length: [np.zeros(n)]
    followed by [fill_array] leaves the very array the caller created
    holding [0, 1, ..., n-1]; one allocation is added (no hidden copy) and
    no other allocation changes. *)
Theorem usage_example_fills (n : nat) (h : gmap Py.loc Py.storage) :
  Z.of_nat n ≤ SizeT.max →
  ∃ array h',
    Py.usage_example n h = (Py.Ok array, h')
    ∧ h !! Py.data array = None
    ∧ Py.shape array = [Z.of_nat n]
    ∧ h' !! Py.data array = Some (Py.F64 (C.fill_values (Z.of_nat n)))
    ∧ (∀ i, 0 ≤ i < Z.of_nat n →
         Py.getitem h' array [i] = Some (of_Z i))
    ∧ dom h' = {[Py.data array]} ∪ dom h
    ∧ ∀ l', is_Some (h !! l') → h' !! l' = h !! l'.
Proof.
  intros Hn.
  destruct (zeros_then_run Py.OneD [n] h) as (Hz & Hv & Hc & Hrun).
  { by repeat constructor. }
  { unfold Py.prod. simpl. lia. }
  { simpl. lia. }
  exists (Py.NdArray (fresh (dom h)) 0 [Z.of_nat n] [1]),
         (<[fresh (dom h) := Py.F64 (C.fill_values (Z.of_nat n))]> h).
  split.
  { unfold Py.usage_example. rewrite bind_run, Hz, bind_run.
    change (Py.fill_array ?x) with (Py.run Py.OneD x). rewrite Hrun.
    unfold mret, Py.py_ret. do 5 f_equal.
    unfold Py.size, Py.prod. cbn [Py.shape fmap list_fmap foldr]. lia. }
  cbn [Py.data Py.shape fmap list_fmap].
  split; [apply fresh_unused|]. split; [done|].
  split; [by rewrite lookup_insert_eq|].
  split; [|split; [by rewrite dom_insert_L|intros l'; apply insert_fresh_frame]].
  intros i Hi. unfold Py.getitem, Py.position, Py.item.
  cbn [Py.data Py.offset Py.strides Py.c_strides zip_with foldr].
  rewrite lookup_insert_eq.
  rewrite (proj2 (Z.leb_le 0 _)) by lia.
  replace (0 + (i * 1 + 0)) with i by lia.
  by apply lookup_fill_values.
Qed.

(** The cell as the notebook has it: ten zeros, then [fill_array]. *)
Lemma usage_example_fills_witness :
  let h : gmap Py.loc Py.storage := ∅ in
  ∃ array h',
    Py.usage_example 10 h = (Py.Ok array, h')
    ∧ h !! Py.data array = None
    ∧ Py.shape array = [10]
    ∧ h' !! Py.data array = Some (Py.F64 (C.fill_values 10))
    ∧ (∀ i, 0 ≤ i < 10 → Py.getitem h' array [i] = Some (of_Z i))
    ∧ dom h' = {[Py.data array]} ∪ dom h
    ∧ ∀ l', is_Some (h !! l') → h' !! l' = h !! l'.
Proof.
  intros h. apply (usage_example_fills 10 h). vm_compute. discriminate.
Defined.

(** X12.  The notebook's 2-D usage cell, for any shape:
    [np.zeros((rows, cols))] followed by [fill_array_2d] leaves the
    caller's matrix holding [i*cols + j] at row [i], column [j]; one
    allocation is added and no other allocation changes. *)
Theorem usage_example_2d_fills (rows cols : nat)
    (h : gmap Py.loc Py.storage) :
  Z.of_nat rows ≤ SizeT.max → Z.of_nat cols ≤ SizeT.max →
  Z.of_nat rows * Z.of_nat cols ≤ SizeT.max →
  ∃ array_2d h',
    Py.usage_example_2d rows cols h = (Py.Ok array_2d, h')
    ∧ h !! Py.data array_2d = None
    ∧ Py.shape array_2d = [Z.of_nat rows; Z.of_nat cols]
    ∧ h' !! Py.data array_2d
      = Some (Py.F64 (C.fill_values (Z.of_nat rows * Z.of_nat cols)))
    ∧ (∀ i j, 0 ≤ i < Z.of_nat rows → 0 ≤ j < Z.of_nat cols →
         Py.getitem h' array_2d [i; j]
         = Some (of_Z (i * Z.of_nat cols + j)))
    ∧ dom h' = {[Py.data array_2d]} ∪ dom h
    ∧ ∀ l', is_Some (h !! l') → h' !! l' = h !! l'.
Proof.
  intros Hr Hcl Hmax.
  assert (Hsz : Py.prod [Z.of_nat rows; Z.of_nat cols]
                = Z.of_nat rows * Z.of_nat cols)
    by (unfold Py.prod; cbn [foldr]; lia).
  destruct (zeros_then_run Py.TwoD [rows; cols] h) as (Hz & Hv & Hc & Hrun).
  { by repeat constructor. }
  { cbn [fmap list_fmap]. by rewrite Hsz. }
  { done. }
  exists (Py.NdArray (fresh (dom h)) 0 [Z.of_nat rows; Z.of_nat cols]
            (Py.c_strides [Z.of_nat rows; Z.of_nat cols])),
         (<[fresh (dom h) :=
              Py.F64 (C.fill_values (Z.of_nat rows * Z.of_nat cols))]> h).
  split.
  { unfold Py.usage_example_2d. rewrite bind_run, Hz, bind_run.
    change (Py.fill_array_2d ?x) with (Py.run Py.TwoD x). rewrite Hrun.
    unfold mret, Py.py_ret. do 5 f_equal.
    unfold Py.size. cbn [Py.shape fmap list_fmap]. exact Hsz. }
  cbn [Py.data Py.shape fmap list_fmap].
  split; [apply fresh_unused|]. split; [done|].
  split; [by rewrite lookup_insert_eq|].
  split; [|split; [by rewrite dom_insert_L|intros l'; apply insert_fresh_frame]].
  intros i j Hi Hj. unfold Py.getitem, Py.position, Py.item.
  cbn [Py.data Py.offset Py.strides Py.c_strides zip_with foldr].
  rewrite lookup_insert_eq.
  destruct (Z.eqb_spec (Z.of_nat cols) 0) as [H0|_]; [lia|].
  rewrite (proj2 (Z.leb_le 0 _)) by nia.
  replace (0 + (i * (1 * Z.of_nat cols) + (j * 1 + 0)))
    with (i * Z.of_nat cols + j) by lia.
  apply lookup_fill_values. nia.
Qed.

(** The cell as the notebook has it: a 3 by 4 matrix of zeros, then
    [fill_array_2d]. *)
Lemma usage_example_2d_fills_witness :
  let h : gmap Py.loc Py.storage := ∅ in
  ∃ array_2d h',
    Py.usage_example_2d 3 4 h = (Py.Ok array_2d, h')
    ∧ h !! Py.data array_2d = None
    ∧ Py.shape array_2d = [3; 4]
    ∧ h' !! Py.data array_2d = Some (Py.F64 (C.fill_values (3 * 4)))
    ∧ (∀ i j, 0 ≤ i < 3 → 0 ≤ j < 4 →
         Py.getitem h' array_2d [i; j] = Some (of_Z (i * 4 + j)))
    ∧ dom h' = {[Py.data array_2d]} ∪ dom h
    ∧ ∀ l', is_Some (h !! l') → h' !! l' = h !! l'.
Proof.
  intros h. apply (usage_example_2d_fills 3 4 h); vm_compute; discriminate.
Defined.
